(** * Order lifecycle coordinator and inventory ledger

    A shallow embedding of the two event handlers of the repository,

      - [services/orders-service/src/index.ts]     (class [OrdersService]),
      - [services/inventory-service/src/index.ts]  (the handlers of [main]),

    and the properties of the specification that concern them.

    Modelling conventions.

      - A JavaScript [Map<string, V>] whose iteration order is never
        observed is a [gmap string V]; the reservation table, which the
        cancellation handler scans in insertion order, is an
        insertion-ordered association list with the semantics of
        [Map.prototype.set/get/delete].
      - Quantities and stock levels are JSON integers ([Z]); amounts and
        prices are JSON decimals ([Q]); a [Date] is its epoch value in
        milliseconds ([Z]).  The code computes in doubles, which agree
        with [Z] as long as operands and results are safe integers (of
        magnitude below 2^53, [Inventory.safeInteger]).
      - A message is a value of the type that its handler declares for
        it.  The subscription loops cast the decoded JSON to that type
        without a check; what a handler does with a payload of another
        shape (no [items] array, say) is outside the model.
      - [NatsConnection | null] is [option Bus], where the bus is the list
        of messages published so far (oldest first); a payload is the
        object handed to [publish], before encoding.
      - The clock is an input: every handler that reads [Date.now()] or
        [new Date()] takes the value read as its argument [now].
      - An exception is an outcome of the computation, next to the state
        reached when it was raised.
      - Console output is not part of the model. *)

From Stdlib Require Import ZArith.
From Stdlib Require QArith_base.
From stdpp Require Import gmap strings list fin_maps pretty.

Open Scope Z_scope.

(** ** Computations with state and exceptions *)

Inductive Outcome (A : Type) : Type :=
  | Returned (a : A)
  | Thrown (msg : string).
Arguments Returned {A} a.
Arguments Thrown {A} msg.

Definition Eff (S A : Type) : Type := S → Outcome A * S.

Definition ret {S A} (a : A) : Eff S A := λ s, (Returned a, s).

Definition throw {S A} (msg : string) : Eff S A := λ s, (Thrown msg, s).

Definition bind {S A B} (m : Eff S A) (k : A → Eff S B) : Eff S B :=
  λ s, match m s with
       | (Returned a, s') => k a s'
       | (Thrown msg, s') => (Thrown msg, s')
       end.

Definition gets {S A} (f : S → A) : Eff S A := λ s, (Returned (f s), s).

Definition modify {S} (f : S → S) : Eff S unit := λ s, (Returned tt, f s).

Declare Scope eff_scope.
Delimit Scope eff_scope with eff.
Notation "'let*' x ':=' m 'in' k" := (bind m (λ x, k))
  (at level 10, x name, m at level 100, k at level 200) : eff_scope.
Notation "m ';;' k" := (bind m (λ _, k))
  (at level 100, k at level 200, right associativity) : eff_scope.

(** [for (const x of l) body(x)] *)
Fixpoint forEach {S A} (l : list A) (body : A → Eff S unit) : Eff S unit :=
  match l with
  | [] => ret tt
  | x :: l' => (body x ;; forEach l' body)%eff
  end.

(** The state a computation leaves behind, whatever its outcome: what the
    [try { await handler(data) } catch (err) { console.error(..) }] of a
    subscription loop keeps. *)
Definition exec {S A} (m : Eff S A) (s : S) : S := (m s).2.

Definition number : Type := QArith_base.Q.
Definition Date : Type := Z.

(** ** The orders service *)

Module Orders.

Module OrderItem.
Record t := mk { itemId : string; quantity : Z; price : number }.
End OrderItem.

Module OrderCreated.
Record t := mk
  { orderId : string; userId : string; totalAmount : number;
    items : list OrderItem.t }.
End OrderCreated.

Module OrderCancelled.
Record t := mk { orderId : string; reason : string }.
End OrderCancelled.

Module OrderCompleted.
Record t := mk { orderId : string; completionTime : string }.
End OrderCompleted.

Module PaymentFailed.
Record t := mk
  { paymentId : string; orderId : string; failureReason : string }.
End PaymentFailed.

Module ShipmentDelivered.
Record t := mk
  { orderId : string; shipmentId : string; deliveryTime : string }.
End ShipmentDelivered.

Module CHANNELS.
Definition orderCancelled : string := "order.cancelled".
Definition orderCompleted : string := "order.completed".
Definition orderCreated : string := "order.created".
Definition paymentFailed : string := "payment.failed".
Definition shipmentDelivered : string := "shipment.delivered".
End CHANNELS.

Inductive OrderStatus : Type :=
  | pending | confirmed | shipped | delivered | completed | cancelled.

#[export] Instance OrderStatus_eq_dec : EqDecision OrderStatus.
Proof. solve_decision. Defined.

Module Order.
Record t := mk
  { orderId : string; userId : string; totalAmount : number;
    items : list OrderItem.t; status : OrderStatus; createdAt : Date }.

(** [order.status = st] *)
Definition set_status (st : OrderStatus) (o : t) : t :=
  {| orderId := orderId o; userId := userId o;
     totalAmount := totalAmount o; items := items o;
     status := st; createdAt := createdAt o |}.
End Order.

(** What [nc.publish(subject, jc.encode(data))] hands to the bus. *)
Inductive Payload : Type :=
  | Cancelled_ (data : OrderCancelled.t)
  | Completed_ (data : OrderCompleted.t).

Definition Bus : Type := list (string * Payload).

(** The fields of [OrdersService] that the handlers read or write. *)
Record OrdersService := mkService
  { nc : option Bus;
    orders : gmap string Order.t }.

Definition set_nc (b : option Bus) (s : OrdersService) : OrdersService :=
  {| nc := b; orders := orders s |}.

Definition set_orders (f : gmap string Order.t → gmap string Order.t)
    (s : OrdersService) : OrdersService :=
  {| nc := nc s; orders := f (orders s) |}.

(** [new OrdersService()] *)
Definition new : OrdersService := {| nc := None; orders := ∅ |}.

(** [connect]: the connection starts with nothing published. *)
Definition connect (s : OrdersService) : OrdersService := set_nc (Some []) s.

(** [this.nc.publish(subject, ..)], after the [if (!this.nc) throw]. *)
Definition publish (subject : string) (p : Payload)
    : Eff OrdersService unit :=
  λ s, match nc s with
       | None => (Thrown "Not connected to NATS", s)
       | Some bus => (Returned tt, set_nc (Some (bus ++ [(subject, p)])) s)
       end.

(** [const order = this.orders.get(id); if (order) order.status = st] *)
Definition markStatus (id : string) (st : OrderStatus)
    : Eff OrdersService unit :=
  λ s, match orders s !! id with
       | Some order =>
           (Returned tt, set_orders (insert id (Order.set_status st order)) s)
       | None => (Returned tt, s)
       end.

Definition sendOrderCancelled (data : OrderCancelled.t)
    : Eff OrdersService unit :=
  (publish CHANNELS.orderCancelled (Cancelled_ data) ;;
   markStatus (OrderCancelled.orderId data) cancelled)%eff.

Definition sendOrderCompleted (data : OrderCompleted.t)
    : Eff OrdersService unit :=
  (publish CHANNELS.orderCompleted (Completed_ data) ;;
   markStatus (OrderCompleted.orderId data) completed)%eff.

Definition handleOrderCreated (now : Date) (data : OrderCreated.t)
    : Eff OrdersService unit :=
  λ s, match orders s !! OrderCreated.orderId data with
       | Some _ => (Returned tt, s)
       | None =>
           (Returned tt,
            set_orders
              (insert (OrderCreated.orderId data)
                 {| Order.orderId := OrderCreated.orderId data;
                    Order.userId := OrderCreated.userId data;
                    Order.totalAmount := OrderCreated.totalAmount data;
                    Order.items := OrderCreated.items data;
                    Order.status := pending;
                    Order.createdAt := now |}) s)
       end.

Definition handlePaymentFailed (data : PaymentFailed.t)
    : Eff OrdersService unit :=
  λ s, match orders s !! PaymentFailed.orderId data with
       | None => (Returned tt, s)
       | Some order =>
           if decide (Order.status order = cancelled) then (Returned tt, s)
           else
             sendOrderCancelled
               {| OrderCancelled.orderId := PaymentFailed.orderId data;
                  OrderCancelled.reason :=
                    "Payment failed: " +:+ PaymentFailed.failureReason data |}
               s
       end.

Definition cancelOrder (orderId reason : string) : Eff OrdersService unit :=
  λ s, match orders s !! orderId with
       | None => (Returned tt, s)
       | Some order =>
           if decide (Order.status order = cancelled) then (Returned tt, s)
           else if decide (Order.status order = completed)
           then (Returned tt, s)
           else
             sendOrderCancelled
               {| OrderCancelled.orderId := orderId;
                  OrderCancelled.reason := reason |} s
       end.

Definition getOrder (orderId : string) (s : OrdersService)
    : option Order.t :=
  orders s !! orderId.

Definition getOrderCount (s : OrdersService) : nat := size (orders s).

Section Clock.
(** [Date.prototype.toISOString], applied to the clock reading. *)
Variable toISOString : Date → string.

Definition handleShipmentDelivered (now : Date)
    (data : ShipmentDelivered.t) : Eff OrdersService unit :=
  λ s, match orders s !! ShipmentDelivered.orderId data with
       | None => (Returned tt, s)
       | Some order =>
           if decide (Order.status order = cancelled)
           then (Returned tt, s)
           else if decide (Order.status order = completed)
           then (Returned tt, s)
           else
             sendOrderCompleted
               {| OrderCompleted.orderId := ShipmentDelivered.orderId data;
                  OrderCompleted.completionTime := toISOString now |}
               s
       end.

(** One message taken from one of the three subscriptions of
    [setupSubscriptions], with the clock reading of its processing. *)
Inductive Delivery : Type :=
  | OnOrderCreated (now : Date) (data : OrderCreated.t)
  | OnPaymentFailed (data : PaymentFailed.t)
  | OnShipmentDelivered (now : Date) (data : ShipmentDelivered.t).

Definition handle (d : Delivery) : Eff OrdersService unit :=
  match d with
  | OnOrderCreated now data => handleOrderCreated now data
  | OnPaymentFailed data => handlePaymentFailed data
  | OnShipmentDelivered now data => handleShipmentDelivered now data
  end.

(** The subscription loops: each message is handled to completion, an
    exception is caught and logged, the next message follows. *)
Definition deliver (s : OrdersService) (d : Delivery) : OrdersService :=
  exec (handle d) s.

Definition process (ds : list Delivery) (s : OrdersService)
    : OrdersService :=
  foldl deliver s ds.
End Clock.

Definition statusOf (id : string) (s : OrdersService)
    : option OrderStatus :=
  Order.status <$> orders s !! id.

Definition published (s : OrdersService) : Bus := default [] (nc s).

(** *** Vocabulary of the properties *)

(** Two records of one order that differ at most in [status]. *)
Definition sameButStatus (o o' : Order.t) : Prop :=
  Order.orderId o' = Order.orderId o ∧
  Order.userId o' = Order.userId o ∧
  Order.totalAmount o' = Order.totalAmount o ∧
  Order.items o' = Order.items o ∧
  Order.createdAt o' = Order.createdAt o.

(** From [s] to [s'] no order appears or disappears, every order other
    than [orderId] is untouched, and [orderId] keeps all its fields,
    [status] possibly excepted. *)
Definition frame (orderId : string) (s s' : OrdersService) : Prop :=
  ∀ id,
    (id ≠ orderId → orders s' !! id = orders s !! id) ∧
    option_Forall2 sameButStatus (orders s !! id) (orders s' !! id).

(** The two conditions that an operator's cancellation can meet. *)
Inductive CancelError : Type := UnknownOrder | AlreadyTerminal.

(** [report] reads the condition met by [cancelOrder] off what the call
    hands back to its caller. *)
Definition reportsCancelErrors (report : Outcome unit → option CancelError)
    : Prop :=
  ∀ s orderId reason,
    is_Some (nc s) →
    report (cancelOrder orderId reason s).1 =
      match statusOf orderId s with
      | None => Some UnknownOrder
      | Some cancelled | Some completed => Some AlreadyTerminal
      | Some _ => None
      end.

(** The record that [handleOrderCreated] stores for a new order. *)
Definition orderOf (now : Date) (data : OrderCreated.t) : Order.t :=
  {| Order.orderId := OrderCreated.orderId data;
     Order.userId := OrderCreated.userId data;
     Order.totalAmount := OrderCreated.totalAmount data;
     Order.items := OrderCreated.items data;
     Order.status := pending;
     Order.createdAt := now |}.

(** A connected service that tracks the pending order [ORD-3] of user
    [U1], amount 42.50, created at clock reading 1000. *)
Definition order3 : OrderCreated.t :=
  {| OrderCreated.orderId := "ORD-3"; OrderCreated.userId := "U1";
     OrderCreated.totalAmount := QArith_base.Qmake 85 2;
     OrderCreated.items := [] |}.

Definition tracking3 : OrdersService :=
  exec (handleOrderCreated 1000 order3) (connect new).

Definition paymentFailed3 : PaymentFailed.t :=
  {| PaymentFailed.paymentId := "PAY-3"; PaymentFailed.orderId := "ORD-3";
     PaymentFailed.failureReason := "card declined" |}.

Definition shipmentDelivered3 : ShipmentDelivered.t :=
  {| ShipmentDelivered.orderId := "ORD-3";
     ShipmentDelivered.shipmentId := "SHP-3";
     ShipmentDelivered.deliveryTime := "2024-05-01T10:00:00.000Z" |}.

(** *** The interface of the service as a whole *)

(** [getOrdersByStatus].  The orders are kept in a [gmap], which does not
    record insertion order: the array is modelled up to the order of its
    elements, and only its length and its members are reasoned about. *)
Definition getOrdersByStatus (status : OrderStatus) (s : OrdersService)
    : list Order.t :=
  filter (λ o, Order.status o = status) (map_to_list (orders s)).*2.

(** What reaches the service once it runs: a message on one of its three
    subscriptions, or a call of [cancelOrder]. *)
Inductive Action : Type :=
  | Deliver (d : Delivery)
  | CancelOrder (orderId reason : string).

Section Interface.
Variable toISOString : Date → string.

Definition perform (a : Action) : Eff OrdersService unit :=
  match a with
  | Deliver d => handle toISOString d
  | CancelOrder orderId reason => cancelOrder orderId reason
  end.

(** The service after an action, whether it returned or threw. *)
Definition act (s : OrdersService) (a : Action) : OrdersService :=
  exec (perform a) s.

Definition run (acts : list Action) (s : OrdersService) : OrdersService :=
  foldl act s acts.
End Interface.

(** The order ids of the order-created messages among the actions. *)
Definition createdIds (acts : list Action) : list string :=
  omap (λ a, match a with
             | Deliver (OnOrderCreated _ data) =>
                 Some (OrderCreated.orderId data)
             | _ => None
             end) acts.

(** Messages on the bus that announce the end of one order. *)
Definition announcesCancelled (orderId : string) (m : string * Payload)
    : bool :=
  match m.2 with
  | Cancelled_ data => bool_decide (OrderCancelled.orderId data = orderId)
  | Completed_ _ => false
  end.

Definition announcesCompleted (orderId : string) (m : string * Payload)
    : bool :=
  match m.2 with
  | Completed_ data => bool_decide (OrderCompleted.orderId data = orderId)
  | Cancelled_ _ => false
  end.

Definition cancelledCount (orderId : string) (s : OrdersService) : nat :=
  length (filter (λ m, announcesCancelled orderId m = true) (published s)).

Definition completedCount (orderId : string) (s : OrdersService) : nat :=
  length (filter (λ m, announcesCompleted orderId m = true) (published s)).

(** The three ways in which an action can change the service. *)
Inductive effect (s : OrdersService) : OrdersService → Prop :=
  | effect_none : effect s s
  | effect_created now data :
      orders s !! OrderCreated.orderId data = None →
      effect s
        {| nc := nc s;
           orders := <[OrderCreated.orderId data := orderOf now data]>
                       (orders s) |}
  | effect_cancelled bus order data :
      nc s = Some bus →
      orders s !! OrderCancelled.orderId data = Some order →
      Order.status order ≠ cancelled →
      effect s
        {| nc := Some (bus ++ [(CHANNELS.orderCancelled, Cancelled_ data)]);
           orders := <[OrderCancelled.orderId data
                       := Order.set_status cancelled order]> (orders s) |}
  | effect_completed bus order data :
      nc s = Some bus →
      orders s !! OrderCompleted.orderId data = Some order →
      Order.status order ≠ cancelled →
      Order.status order ≠ completed →
      effect s
        {| nc := Some (bus ++ [(CHANNELS.orderCompleted, Completed_ data)]);
           orders := <[OrderCompleted.orderId data
                       := Order.set_status completed order]> (orders s) |}.

(** Every record sits under its own order id, in one of the three states
    that the service assigns. *)
Definition tracked (s : OrdersService) : Prop :=
  ∀ id order,
    orders s !! id = Some order →
    Order.orderId order = id ∧
    (Order.status order = pending ∨ Order.status order = completed ∨
     Order.status order = cancelled).

(** The messages on the bus match the state of every order. *)
Definition announced (s : OrdersService) : Prop :=
  ∀ id,
    match statusOf id s with
    | None | Some pending => cancelledCount id s = 0%nat ∧ completedCount id s = 0%nat
    | Some completed => cancelledCount id s = 0%nat ∧ completedCount id s = 1%nat
    | Some cancelled => cancelledCount id s = 1%nat ∧ (completedCount id s ≤ 1)%nat
    | Some _ => False
    end.

End Orders.

(** ** The inventory service *)

Module Inventory.

Module InventoryItem.
Record t := mk { itemId : string; quantity : Z }.
End InventoryItem.

Module InventoryReserved.
Record t := mk
  { reservationId : string; orderId : string;
    items : list InventoryItem.t }.
End InventoryReserved.

Module InventoryReleased.
Record t := mk
  { reservationId : string; orderId : string;
    items : list InventoryItem.t }.
End InventoryReleased.

Module InventoryUpdated.
Record t := mk { itemId : string; newQuantity : Z }.
End InventoryUpdated.

Module OrderCreated.
Record t := mk { orderId : string; items : list InventoryItem.t }.
End OrderCreated.

Module OrderCancelled.
Record t := mk { orderId : string; items : list InventoryItem.t }.
End OrderCancelled.

Module CHANNELS.
Definition INVENTORY_RESERVED : string := "inventory.reserved".
Definition INVENTORY_RELEASED : string := "inventory.released".
Definition INVENTORY_UPDATED : string := "inventory.updated".
Definition ORDER_CREATED : string := "order.created".
Definition ORDER_CANCELLED : string := "order.cancelled".
End CHANNELS.

(** The value type of the [reservations] map. *)
Module Reservation.
Record t := mk { orderId : string; items : list InventoryItem.t }.
End Reservation.

(** *** A [Map] in insertion order *)

Section JsMap.
Context {V : Type}.

Definition JsMap : Type := list (string * V).

Fixpoint jm_get (k : string) (m : JsMap) : option V :=
  match m with
  | [] => None
  | (k', v) :: m' => if decide (k' = k) then Some v else jm_get k m'
  end.

(** [set] keeps the position of a key that is present and appends a
    key that is not. *)
Fixpoint jm_set (k : string) (v : V) (m : JsMap) : JsMap :=
  match m with
  | [] => [(k, v)]
  | (k', v') :: m' =>
      if decide (k' = k) then (k, v) :: m' else (k', v') :: jm_set k v m'
  end.

Fixpoint jm_delete (k : string) (m : JsMap) : JsMap :=
  match m with
  | [] => []
  | (k', v') :: m' =>
      if decide (k' = k) then m' else (k', v') :: jm_delete k m'
  end.

Definition jm_keys (m : JsMap) : list string := m.*1.
End JsMap.
Arguments JsMap V : clear implicits.

Inductive Payload : Type :=
  | Reserved_ (data : InventoryReserved.t)
  | Released_ (data : InventoryReleased.t)
  | Updated_ (data : InventoryUpdated.t).

Definition Bus : Type := list (string * Payload).

(** The module-level maps [inventoryStore] and [reservations], and the
    connection of the [InventoryService] instance of [main]. *)
Record Ledger := mkLedger
  { nc : option Bus;
    inventoryStore : gmap string Z;
    reservations : JsMap Reservation.t }.

Definition set_nc (b : option Bus) (s : Ledger) : Ledger :=
  {| nc := b; inventoryStore := inventoryStore s;
     reservations := reservations s |}.

Definition set_inventoryStore (f : gmap string Z → gmap string Z)
    (s : Ledger) : Ledger :=
  {| nc := nc s; inventoryStore := f (inventoryStore s);
     reservations := reservations s |}.

Definition set_reservations
    (f : JsMap Reservation.t → JsMap Reservation.t) (s : Ledger) : Ledger :=
  {| nc := nc s; inventoryStore := inventoryStore s;
     reservations := f (reservations s) |}.

(** The seeded catalog. *)
Definition seed : gmap string Z :=
  <["ITEM-001" := 100]> (<["ITEM-002" := 50]>
    (<["ITEM-003" := 200]> (<["ITEM-004" := 75]> ∅))).

(** The state in which [main] installs the handlers: connected, the
    catalog seeded, no reservation. *)
Definition init : Ledger :=
  {| nc := Some []; inventoryStore := seed; reservations := [] |}.

(** [inventoryStore.get(itemId) || 0] *)
Definition stockOf (store : gmap string Z) (itemId : string) : Z :=
  match store !! itemId with
  | Some q => if decide (q = 0) then 0 else q
  | None => 0
  end.

Definition publish (subject : string) (p : Payload) : Eff Ledger unit :=
  λ s, match nc s with
       | None => (Thrown "Not connected to NATS", s)
       | Some bus => (Returned tt, set_nc (Some (bus ++ [(subject, p)])) s)
       end.

Definition sendInventoryReserved (data : InventoryReserved.t)
    : Eff Ledger unit :=
  publish CHANNELS.INVENTORY_RESERVED (Reserved_ data).

Definition sendInventoryReleased (data : InventoryReleased.t)
    : Eff Ledger unit :=
  publish CHANNELS.INVENTORY_RELEASED (Released_ data).

Definition sendInventoryUpdated (data : InventoryUpdated.t)
    : Eff Ledger unit :=
  publish CHANNELS.INVENTORY_UPDATED (Updated_ data).

Fixpoint checkInventoryAvailability (items : list InventoryItem.t)
    (store : gmap string Z) : bool :=
  match items with
  | [] => true
  | item :: rest =>
      if decide (stockOf store (InventoryItem.itemId item)
                 < InventoryItem.quantity item)
      then false
      else checkInventoryAvailability rest store
  end.

Fixpoint reserveInventory (items : list InventoryItem.t)
    (store : gmap string Z) : gmap string Z :=
  match items with
  | [] => store
  | item :: rest =>
      let current := stockOf store (InventoryItem.itemId item) in
      reserveInventory rest
        (<[InventoryItem.itemId item
           := current - InventoryItem.quantity item]> store)
  end.

Fixpoint releaseInventory (items : list InventoryItem.t)
    (store : gmap string Z) : gmap string Z :=
  match items with
  | [] => store
  | item :: rest =>
      let current := stockOf store (InventoryItem.itemId item) in
      releaseInventory rest
        (<[InventoryItem.itemId item
           := current + InventoryItem.quantity item]> store)
  end.

(** [`RES-${Date.now()}`] *)
Definition reservationIdAt (now : Z) : string := "RES-" +:+ pretty now.

(** The [for (const item of items)] loop that closes both handlers. *)
Definition sendUpdates (items : list InventoryItem.t) : Eff Ledger unit :=
  forEach items (λ item,
    let* newQuantity :=
      gets (λ s, stockOf (inventoryStore s) (InventoryItem.itemId item)) in
    sendInventoryUpdated
      {| InventoryUpdated.itemId := InventoryItem.itemId item;
         InventoryUpdated.newQuantity := newQuantity |})%eff.

(** The handler that [main] passes to [subscribeToOrderCreated]. *)
Definition onOrderCreated (now : Z) (data : OrderCreated.t)
    : Eff Ledger unit :=
  (let* available :=
     gets (λ s, checkInventoryAvailability (OrderCreated.items data)
                  (inventoryStore s)) in
   if available : bool then
     modify (set_inventoryStore
               (reserveInventory (OrderCreated.items data))) ;;
     let reservationId := reservationIdAt now in
     modify (set_reservations
               (jm_set reservationId
                  {| Reservation.orderId := OrderCreated.orderId data;
                     Reservation.items := OrderCreated.items data |})) ;;
     sendInventoryReserved
       {| InventoryReserved.reservationId := reservationId;
          InventoryReserved.orderId := OrderCreated.orderId data;
          InventoryReserved.items := OrderCreated.items data |} ;;
     sendUpdates (OrderCreated.items data)
   else ret tt)%eff.

(** The scan [for (const [resId, reservation] of reservations.entries())]
    with its [break]: [null] when no entry matches. *)
Fixpoint findReservation (orderId : string) (m : JsMap Reservation.t)
    : option string :=
  match m with
  | [] => None
  | (resId, reservation) :: rest =>
      if decide (Reservation.orderId reservation = orderId)
      then Some resId
      else findReservation orderId rest
  end.

(** [if (reservationId)]: neither [null] nor the empty string. *)
Definition truthy (reservationId : option string) : option string :=
  match reservationId with
  | Some resId => if decide (resId = "") then None else Some resId
  | None => None
  end.

(** The handler that [main] passes to [subscribeToOrderCancelled]. *)
Definition onOrderCancelled (data : OrderCancelled.t) : Eff Ledger unit :=
  (let* found :=
     gets (λ s, findReservation (OrderCancelled.orderId data)
                  (reservations s)) in
   match truthy found with
   | Some reservationId =>
       let* entry := gets (λ s, jm_get reservationId (reservations s)) in
       match entry with
       | None => throw "TypeError: Cannot read properties of undefined"
       | Some reservation =>
           modify (set_inventoryStore
                     (releaseInventory (Reservation.items reservation))) ;;
           modify (set_reservations (jm_delete reservationId)) ;;
           sendInventoryReleased
             {| InventoryReleased.reservationId := reservationId;
                InventoryReleased.orderId := OrderCancelled.orderId data;
                InventoryReleased.items := Reservation.items reservation |} ;;
           sendUpdates (Reservation.items reservation)
       end
   | None => ret tt
   end)%eff.

Inductive Delivery : Type :=
  | OnOrderCreated (now : Z) (data : OrderCreated.t)
  | OnOrderCancelled (data : OrderCancelled.t).

Definition handle (d : Delivery) : Eff Ledger unit :=
  match d with
  | OnOrderCreated now data => onOrderCreated now data
  | OnOrderCancelled data => onOrderCancelled data
  end.

Definition deliver (s : Ledger) (d : Delivery) : Ledger :=
  exec (handle d) s.

Definition process (ds : list Delivery) (s : Ledger) : Ledger :=
  foldl deliver s ds.

Definition published (s : Ledger) : Bus := default [] (nc s).

(** Reserved quantity of one item in a list of lines, and in the whole
    reservation table. *)
Definition lineTotal (itemId : string) (items : list InventoryItem.t) : Z :=
  foldr (λ item acc,
           if decide (InventoryItem.itemId item = itemId)
           then InventoryItem.quantity item + acc else acc) 0 items.

Definition reservedTotal (itemId : string) (m : JsMap Reservation.t) : Z :=
  foldr (λ e acc, lineTotal itemId (Reservation.items e.2) + acc) 0 m.

(** *** Vocabulary of the properties *)

(** What a [Map] guarantees of its keys, and what the handlers guarantee
    of the reservation ids they generate. *)
Definition ledger_wf (s : Ledger) : Prop :=
  NoDup (jm_keys (reservations s)) ∧ "" ∉ jm_keys (reservations s).

Definition insufficient (store : gmap string Z) (item : InventoryItem.t)
    : Prop :=
  stockOf store (InventoryItem.itemId item) < InventoryItem.quantity item.

Definition sufficient (store : gmap string Z) (item : InventoryItem.t)
    : Prop :=
  InventoryItem.quantity item ≤ stockOf store (InventoryItem.itemId item).

(** The [inventory.updated] messages of [sendUpdates], read off a store. *)
Definition updates (store : gmap string Z) (items : list InventoryItem.t)
    : Bus :=
  map (λ item,
         (CHANNELS.INVENTORY_UPDATED,
          Updated_
            {| InventoryUpdated.itemId := InventoryItem.itemId item;
               InventoryUpdated.newQuantity :=
                 stockOf store (InventoryItem.itemId item) |})) items.

(** The record stored, and the two messages built, by the handlers. *)
Definition reservationOf (data : OrderCreated.t) : Reservation.t :=
  {| Reservation.orderId := OrderCreated.orderId data;
     Reservation.items := OrderCreated.items data |}.

Definition reservedAt (now : Z) (data : OrderCreated.t)
    : InventoryReserved.t :=
  {| InventoryReserved.reservationId := reservationIdAt now;
     InventoryReserved.orderId := OrderCreated.orderId data;
     InventoryReserved.items := OrderCreated.items data |}.

Definition releasedOf (reservationId orderId : string)
    (reservation : Reservation.t) : InventoryReleased.t :=
  {| InventoryReleased.reservationId := reservationId;
     InventoryReleased.orderId := orderId;
     InventoryReleased.items := Reservation.items reservation |}.

Definition reservationsOf (orderId : string) (m : JsMap Reservation.t)
    : JsMap Reservation.t :=
  filter (λ e, Reservation.orderId e.2 = orderId) m.

(** The conservation law and the sign condition of the ledger. *)
Definition conserved (s : Ledger) : Prop :=
  ∀ itemId,
    stockOf (inventoryStore s) itemId
    + reservedTotal itemId (reservations s) = stockOf seed itemId.

Definition nonNegative (s : Ledger) : Prop :=
  ∀ itemId, 0 ≤ stockOf (inventoryStore s) itemId.

(** [Number.isSafeInteger]: the integers on which the arithmetic of the
    code, done in doubles, is exact. *)
Definition safeInteger (z : Z) : Prop := - (2 ^ 53 - 1) ≤ z ≤ 2 ^ 53 - 1.

Definition positiveLines (items : list InventoryItem.t) : Prop :=
  Forall (λ item, 1 ≤ InventoryItem.quantity item) items.

Definition distinctLines (items : list InventoryItem.t) : Prop :=
  NoDup (InventoryItem.itemId <$> items).

Definition reservedPositive (s : Ledger) : Prop :=
  Forall (λ e, positiveLines (Reservation.items e.2)) (reservations s).

(** A delivery that meets the ledger the way the handlers take for
    granted: an order-created message has lines of quantity at least 1
    for pairwise different items, and the reservation id generated at its
    clock reading is not in use. *)
Definition regularAt (s : Ledger) (d : Delivery) : Prop :=
  match d with
  | OnOrderCreated now data =>
      positiveLines (OrderCreated.items data) ∧
      distinctLines (OrderCreated.items data) ∧
      reservationIdAt now ∉ jm_keys (reservations s)
  | OnOrderCancelled _ => True
  end.

Fixpoint regular (s : Ledger) (ds : list Delivery) : Prop :=
  match ds with
  | [] => True
  | d :: ds' => regularAt s d ∧ regular (deliver s d) ds'
  end.

Definition line (itemId : string) (quantity : Z) : InventoryItem.t :=
  {| InventoryItem.itemId := itemId; InventoryItem.quantity := quantity |}.

(** Sample messages. *)
Definition order1 : OrderCreated.t :=
  {| OrderCreated.orderId := "ORD-1";
     OrderCreated.items := [line "ITEM-001" 10] |}.

Definition order2 : OrderCreated.t :=
  {| OrderCreated.orderId := "ORD-2";
     OrderCreated.items := [line "ITEM-002" 5] |}.

Definition order60 : OrderCreated.t :=
  {| OrderCreated.orderId := "ORD-2";
     OrderCreated.items := [line "ITEM-002" 60] |}.

Definition order7 : OrderCreated.t :=
  {| OrderCreated.orderId := "ORD-7";
     OrderCreated.items := [line "ITEM-002" 30; line "ITEM-002" 30] |}.

Definition order2' : OrderCreated.t :=
  {| OrderCreated.orderId := "ORD-2";
     OrderCreated.items := [line "ITEM-001" 5] |}.

Definition cancel1 : OrderCancelled.t :=
  {| OrderCancelled.orderId := "ORD-1"; OrderCancelled.items := [] |}.

End Inventory.

(** * Properties of the orders service *)

Module OrdersFacts.
Import Orders.

Lemma sameButStatus_refl o : sameButStatus o o.
Proof. by repeat split. Qed.

Lemma sameButStatus_set_status st o : sameButStatus o (Order.set_status st o).
Proof. by repeat split. Qed.

Lemma frame_refl id s : frame id s s.
Proof.
  intros k. split; [done|].
  destruct (orders s !! k); constructor. apply sameButStatus_refl.
Qed.

Lemma publish_connected subject p s bus :
  nc s = Some bus →
  publish subject p s = (Returned tt, set_nc (Some (bus ++ [(subject, p)])) s).
Proof. intros H. unfold publish. by rewrite H. Qed.

Lemma publish_disconnected subject p s :
  nc s = None → publish subject p s = (Thrown "Not connected to NATS", s).
Proof. intros H. unfold publish. by rewrite H. Qed.

Lemma markStatus_frame id st s : frame id s (exec (markStatus id st) s).
Proof.
  unfold exec, markStatus. destruct (orders s !! id) as [o|] eqn:Ho; simpl.
  - intros k. unfold set_orders; simpl. split.
    + intros Hne. by rewrite lookup_insert_ne.
    + destruct (decide (k = id)) as [->|Hne].
      * rewrite Ho, lookup_insert_eq. constructor. apply sameButStatus_set_status.
      * rewrite lookup_insert_ne by done.
        destruct (orders s !! k); constructor. apply sameButStatus_refl.
  - apply frame_refl.
Qed.

Lemma send_frame subject p id st s :
  frame id s (exec (publish subject p ;; markStatus id st)%eff s).
Proof.
  unfold exec, bind. destruct (nc s) as [bus|] eqn:Hnc.
  - rewrite (publish_connected _ _ _ _ Hnc).
    apply (markStatus_frame id st (set_nc _ s)).
  - rewrite (publish_disconnected _ _ _ Hnc). apply frame_refl.
Qed.

Lemma send_connected subject p id st s bus o :
  nc s = Some bus → orders s !! id = Some o →
  (publish subject p ;; markStatus id st)%eff s =
    (Returned tt,
     {| nc := Some (bus ++ [(subject, p)]);
        orders := <[id := Order.set_status st o]> (orders s) |}).
Proof.
  intros Hnc Ho. unfold bind. rewrite (publish_connected _ _ _ _ Hnc).
  unfold markStatus. simpl. by rewrite Ho.
Qed.

Lemma statusOf_Some id s st :
  statusOf id s = Some st ↔ ∃ o, orders s !! id = Some o ∧ Order.status o = st.
Proof.
  unfold statusOf. destruct (orders s !! id) as [o|]; simpl; split.
  - intros [= <-]. eauto.
  - intros (o' & [= <-] & <-). done.
  - done.
  - by intros (? & ? & _).
Qed.

(** C7.  On a connected service, a payment failure for an order that
    exists and is pending returns normally, leaves the order cancelled,
    and publishes on [order.cancelled] one message for that order id
    whose reason is ["Payment failed: "] followed by the failure reason
    of the incoming message. *)
Theorem handlePaymentFailed_cancels_pending s data :
  is_Some (nc s) →
  statusOf (PaymentFailed.orderId data) s = Some pending →
  let r := handlePaymentFailed data s in
  r.1 = Returned tt ∧
  statusOf (PaymentFailed.orderId data) r.2 = Some cancelled ∧
  published r.2 =
    published s ++
      [(CHANNELS.orderCancelled,
        Cancelled_
          {| OrderCancelled.orderId := PaymentFailed.orderId data;
             OrderCancelled.reason :=
               "Payment failed: " +:+ PaymentFailed.failureReason data |})].
Proof.
  intros [bus Hnc] (o & Ho & Hst)%statusOf_Some. unfold handlePaymentFailed.
  rewrite Ho. rewrite decide_False by (rewrite Hst; done).
  unfold sendOrderCancelled. simpl OrderCancelled.orderId.
  rewrite (send_connected _ _ _ _ _ _ _ Hnc Ho). simpl.
  split; [done|]. split.
  - unfold statusOf. simpl. by rewrite lookup_insert_eq.
  - unfold published. simpl. by rewrite Hnc.
Qed.


(** Scenario 4 of the specification: failure reason ["card declined"]
    yields the reason ["Payment failed: card declined"]. *)
Example handlePaymentFailed_card_declined :
  statusOf "ORD-3" tracking3 = Some pending ∧
  let r := handlePaymentFailed paymentFailed3 tracking3 in
  r.1 = Returned tt ∧
  statusOf "ORD-3" r.2 = Some cancelled ∧
  published r.2 =
    [("order.cancelled",
      Cancelled_ {| OrderCancelled.orderId := "ORD-3";
                    OrderCancelled.reason := "Payment failed: card declined" |})].
Proof.
  split; [reflexivity|].
  apply (handlePaymentFailed_cancels_pending tracking3 paymentFailed3).
  - exists []. reflexivity.
  - reflexivity.
Defined.

Lemma handlePaymentFailed_frame data s :
  frame (PaymentFailed.orderId data) s (exec (handlePaymentFailed data) s).
Proof.
  unfold exec, handlePaymentFailed.
  destruct (orders s !! PaymentFailed.orderId data) as [o|]; [|apply frame_refl].
  case_decide; [apply frame_refl|].
  apply (send_frame _ _ (PaymentFailed.orderId data) cancelled s).
Qed.

(** C9, as the code has it.  [cancelOrder] hands nothing back to its
    caller.  When the order is unknown, or already cancelled or
    completed, it returns normally and leaves the service as it was, with
    nothing published, whether the service is connected or not.  When the
    order exists and is not terminal it does what a payment failure
    carrying the same reason text does, and changes no other field and no
    other order; on a connected service it returns normally, the order is
    left cancelled and one [order.cancelled] message with the given order
    id and reason is published. *)
Theorem cancelOrder_silent_or_cancels s orderId reason :
  let r := cancelOrder orderId reason s in
  match statusOf orderId s with
  | None | Some cancelled | Some completed => r = (Returned tt, s)
  | Some _ =>
      (∀ paymentId failureReason,
         reason = "Payment failed: " +:+ failureReason →
         handlePaymentFailed
           {| PaymentFailed.paymentId := paymentId;
              PaymentFailed.orderId := orderId;
              PaymentFailed.failureReason := failureReason |} s = r) ∧
      frame orderId s r.2 ∧
      (is_Some (nc s) →
       r.1 = Returned tt ∧
       statusOf orderId r.2 = Some cancelled ∧
       published r.2 =
         published s ++
           [(CHANNELS.orderCancelled,
             Cancelled_ {| OrderCancelled.orderId := orderId;
                           OrderCancelled.reason := reason |})])
  end.
Proof.
  unfold cancelOrder, statusOf, handlePaymentFailed.
  simpl PaymentFailed.orderId. simpl PaymentFailed.failureReason.
  destruct (orders s !! orderId) as [o|] eqn:Ho; simpl; [|done].
  pose proof (send_frame CHANNELS.orderCancelled
                (Cancelled_ {| OrderCancelled.orderId := orderId;
                               OrderCancelled.reason := reason |})
                orderId cancelled s) as Hframe.
  unfold exec in Hframe.
  change (publish _ _ ;; markStatus orderId cancelled)%eff
    with (sendOrderCancelled {| OrderCancelled.orderId := orderId;
                                OrderCancelled.reason := reason |}) in Hframe.
  assert (Hsend : is_Some (nc s) →
            let r := sendOrderCancelled
                       {| OrderCancelled.orderId := orderId;
                          OrderCancelled.reason := reason |} s in
            r.1 = Returned tt ∧
            statusOf orderId r.2 = Some cancelled ∧
            published r.2 =
              published s ++
                [(CHANNELS.orderCancelled,
                  Cancelled_ {| OrderCancelled.orderId := orderId;
                                OrderCancelled.reason := reason |})]).
  { intros [bus Hnc]. unfold sendOrderCancelled. simpl OrderCancelled.orderId.
    rewrite (send_connected _ _ _ _ _ _ _ Hnc Ho). simpl.
    split; [done|]. split.
    - unfold statusOf. simpl. by rewrite lookup_insert_eq.
    - unfold published. simpl. by rewrite Hnc. }
  destruct (Order.status o) eqn:Hst; simpl; try done;
    (split; [by intros ? ? ->|]; split; [exact Hframe|exact Hsend]).
Qed.

(** An operator cancels the pending order [ORD-3]. *)
Example cancelOrder_silent_or_cancels_pending :
  let r := cancelOrder "ORD-3" "operator request" tracking3 in
  r.1 = Returned tt ∧
  statusOf "ORD-3" r.2 = Some cancelled ∧
  published r.2 =
    [("order.cancelled",
      Cancelled_ {| OrderCancelled.orderId := "ORD-3";
                    OrderCancelled.reason := "operator request" |})].
Proof.
  destruct (cancelOrder_silent_or_cancels tracking3 "ORD-3" "operator request")
    as (_ & _ & Hconnected).
  apply Hconnected. exists []. reflexivity.
Defined.

(** Against C9 as stated.  Cancelling the unknown order [ORD-404] and
    cancelling the pending order [ORD-3] hand the same thing back to the
    caller, a normal return without a value; so nothing that the caller
    receives tells an unknown or terminal order from a cancellation that
    took place. *)
Lemma cancelOrder_reports_nothing :
  cancelOrder "ORD-404" "operator request" tracking3 = (Returned tt, tracking3) ∧
  (cancelOrder "ORD-3" "operator request" tracking3).1 = Returned tt ∧
  ¬ ∃ report, reportsCancelErrors report.
Proof.
  split; [reflexivity|]. split; [reflexivity|].
  intros (report & Hrep).
  assert (Hc : is_Some (nc tracking3)) by (exists []; reflexivity).
  pose proof (Hrep tracking3 "ORD-404" "operator request" Hc) as H1.
  pose proof (Hrep tracking3 "ORD-3" "operator request" Hc) as H2.
  vm_compute in H1, H2. congruence.
Qed.

(** What the guards of the two handlers do give: a message for an unknown
    order is ignored by both, a cancelled order is final for both, and a
    completed order is final for [handleShipmentDelivered]. *)
Lemma handlePaymentFailed_ignored data s :
  statusOf (PaymentFailed.orderId data) s = None ∨
  statusOf (PaymentFailed.orderId data) s = Some cancelled →
  handlePaymentFailed data s = (Returned tt, s).
Proof.
  unfold handlePaymentFailed, statusOf.
  destruct (orders s !! PaymentFailed.orderId data) as [o|]; simpl; [|done].
  intros [[=]|[= ->]]. done.
Qed.

Lemma handleOrderCreated_twice s now1 now2 d1 d2 :
  OrderCreated.orderId d2 = OrderCreated.orderId d1 →
  let s1 := exec (handleOrderCreated now1 d1) s in
  let r := handleOrderCreated now2 d2 s1 in
  r = (Returned tt, s1) ∧
  is_Some (orders s1 !! OrderCreated.orderId d1) ∧
  (orders s !! OrderCreated.orderId d1 = None →
   size (orders r.2) = S (size (orders s)) ∧
   orders r.2 !! OrderCreated.orderId d1 = Some (orderOf now1 d1)).
Proof.
  intros Hid. unfold exec, handleOrderCreated. rewrite Hid.
  destruct (orders s !! OrderCreated.orderId d1) as [o|] eqn:Ho; simpl.
  - rewrite Ho. by eauto.
  - rewrite lookup_insert_eq. simpl. split; [done|]. split; [by eauto|].
    intros _. rewrite lookup_insert_eq.
    split; [by apply map_size_insert_None|done].
Qed.

Section ClockFacts.
Variable toISOString : Date → string.

Lemma handleShipmentDelivered_frame now data s :
  frame (ShipmentDelivered.orderId data) s
    (exec (handleShipmentDelivered toISOString now data) s).
Proof.
  unfold exec, handleShipmentDelivered.
  destruct (orders s !! ShipmentDelivered.orderId data) as [o|];
    [|apply frame_refl].
  repeat (case_decide; [apply frame_refl|]).
  apply (send_frame _ _ (ShipmentDelivered.orderId data) completed s).
Qed.

(** C6.  For an order that exists and is pending, the shipment-delivered
    handler of a connected service returns normally, leaves the order
    completed and publishes on [order.completed] one message whose
    completion time is the ISO rendering of the clock reading [now] at
    which the message is processed.  For an unknown, cancelled or
    completed order it returns and changes nothing.  The delivery time
    and shipment id of the incoming message have no influence on the
    outcome. *)
Theorem handleShipmentDelivered_completes_pending s now data :
  let r := handleShipmentDelivered toISOString now data s in
  (is_Some (nc s) →
   statusOf (ShipmentDelivered.orderId data) s = Some pending →
   r.1 = Returned tt ∧
   statusOf (ShipmentDelivered.orderId data) r.2 = Some completed ∧
   published r.2 =
     published s ++
       [(CHANNELS.orderCompleted,
         Completed_
           {| OrderCompleted.orderId := ShipmentDelivered.orderId data;
              OrderCompleted.completionTime := toISOString now |})]) ∧
  (statusOf (ShipmentDelivered.orderId data) s = None ∨
   statusOf (ShipmentDelivered.orderId data) s = Some cancelled ∨
   statusOf (ShipmentDelivered.orderId data) s = Some completed →
   r = (Returned tt, s)) ∧
  (∀ shipmentId deliveryTime,
     handleShipmentDelivered toISOString now
       {| ShipmentDelivered.orderId := ShipmentDelivered.orderId data;
          ShipmentDelivered.shipmentId := shipmentId;
          ShipmentDelivered.deliveryTime := deliveryTime |} s = r).
Proof.
  unfold handleShipmentDelivered, statusOf. simpl ShipmentDelivered.orderId.
  destruct (orders s !! ShipmentDelivered.orderId data) as [o|] eqn:Ho;
    simpl; [|by repeat split].
  split; [|split; [|done]].
  - intros [bus Hnc] [= Hst]. rewrite Hst. simpl.
    unfold sendOrderCompleted. simpl OrderCompleted.orderId.
    rewrite (send_connected _ _ _ _ _ _ _ Hnc Ho). simpl.
    split; [done|]. split; [by rewrite lookup_insert_eq|].
    unfold published. simpl. by rewrite Hnc.
  - intros [[=]|[[= ->]|[= ->]]]; done.
Qed.

(** C10.  Whatever the payment-failed and shipment-delivered handlers
    do, they do it to the [status] of the order named by the message:
    every other order record is untouched, no record appears or
    disappears, and the named order keeps its order id, user id, total
    amount, items and creation date. *)
Theorem terminal_transition_frame s :
  (∀ data,
     frame (PaymentFailed.orderId data) s
       (exec (handlePaymentFailed data) s)) ∧
  (∀ now data,
     frame (ShipmentDelivered.orderId data) s
       (exec (handleShipmentDelivered toISOString now data) s)).
Proof.
  split.
  - intros data. apply handlePaymentFailed_frame.
  - intros now data. apply handleShipmentDelivered_frame.
Qed.

(** C1 at its failing input.  The pending order [ORD-3] is completed by
    a shipment-delivered message; a payment-failed message processed
    afterwards takes it out of its terminal state, to cancelled, and a
    further [order.cancelled] message is published.  [handlePaymentFailed]
    guards against [cancelled] only, where [handleShipmentDelivered] and
    [cancelOrder] guard against [completed] as well. *)
Theorem payment_failure_after_completion :
  let delivered := deliver toISOString tracking3 (OnShipmentDelivered 2000 shipmentDelivered3) in
  let failed := deliver toISOString delivered (OnPaymentFailed paymentFailed3) in
  statusOf "ORD-3" tracking3 = Some pending ∧
  statusOf "ORD-3" delivered = Some completed ∧
  statusOf "ORD-3" failed = Some cancelled ∧
  published failed =
    published delivered ++
      [("order.cancelled",
        Cancelled_ {| OrderCancelled.orderId := "ORD-3";
                      OrderCancelled.reason := "Payment failed: card declined" |})].
Proof. repeat split. Qed.
End ClockFacts.

(** The pending order [ORD-3] delivered at clock reading 2000, with a
    delivery time of its own in the message. *)
Example handleShipmentDelivered_completes_order3 :
  let iso := λ now : Date, "T+" +:+ pretty now in
  let r := handleShipmentDelivered iso 2000 shipmentDelivered3 tracking3 in
  r.1 = Returned tt ∧
  statusOf "ORD-3" r.2 = Some completed ∧
  published r.2 =
    [("order.completed",
      Completed_ {| OrderCompleted.orderId := "ORD-3";
                    OrderCompleted.completionTime := "T+2000" |})].
Proof.
  destruct (handleShipmentDelivered_completes_pending
              (λ now : Date, "T+" +:+ pretty now) tracking3 2000
              shipmentDelivered3) as (Hp & _).
  apply Hp.
  - exists []. reflexivity.
  - reflexivity.
Defined.

(** *** The service over its whole interface *)

Lemma frame_dom id s s' : frame id s s' → dom (orders s') = dom (orders s).
Proof.
  intros Hframe. apply set_eq. intros k. rewrite !elem_of_dom.
  destruct (Hframe k) as [_ Hk]. destruct Hk; split; intros [? ?]; by eauto.
Qed.

Lemma cancelOrder_frame orderId reason s :
  frame orderId s (exec (cancelOrder orderId reason) s).
Proof.
  unfold exec, cancelOrder.
  destruct (orders s !! orderId) as [o|]; [|apply frame_refl].
  repeat (case_decide; [apply frame_refl|]).
  apply (send_frame _ _ orderId cancelled s).
Qed.

Lemma sendOrderCancelled_effect data s order :
  orders s !! OrderCancelled.orderId data = Some order →
  Order.status order ≠ cancelled →
  effect s (exec (sendOrderCancelled data) s).
Proof.
  intros Ho Hst. unfold exec, sendOrderCancelled.
  destruct (nc s) as [bus|] eqn:Hnc.
  - rewrite (send_connected _ _ _ _ _ _ _ Hnc Ho). simpl.
    by apply effect_cancelled.
  - unfold bind. rewrite (publish_disconnected _ _ _ Hnc). simpl. constructor.
Qed.

Lemma sendOrderCompleted_effect data s order :
  orders s !! OrderCompleted.orderId data = Some order →
  Order.status order ≠ cancelled →
  Order.status order ≠ completed →
  effect s (exec (sendOrderCompleted data) s).
Proof.
  intros Ho Hst Hst'. unfold exec, sendOrderCompleted.
  destruct (nc s) as [bus|] eqn:Hnc.
  - rewrite (send_connected _ _ _ _ _ _ _ Hnc Ho). simpl.
    by apply effect_completed.
  - unfold bind. rewrite (publish_disconnected _ _ _ Hnc). simpl. constructor.
Qed.

Lemma effect_persists s s' id order :
  effect s s' →
  orders s !! id = Some order →
  ∃ order',
    orders s' !! id = Some order' ∧ sameButStatus order order' ∧
    (Order.status order = cancelled → Order.status order' = cancelled).
Proof.
  intros Heff Ho. destruct Heff as [|now data Hnew|bus o data Hnc Hd Hst
                                    |bus o data Hnc Hd Hst Hst']; simpl.
  - exists order. by split; [|split; [apply sameButStatus_refl|]].
  - exists order. rewrite lookup_insert_ne by (intros <-; congruence).
    by split; [|split; [apply sameButStatus_refl|]].
  - destruct (decide (OrderCancelled.orderId data = id)) as [<-|Hne].
    + rewrite lookup_insert_eq. assert (o = order) as -> by congruence.
      eexists. split; [done|]. split; [apply sameButStatus_set_status|done].
    + rewrite lookup_insert_ne by done. exists order.
      by split; [|split; [apply sameButStatus_refl|]].
  - destruct (decide (OrderCompleted.orderId data = id)) as [<-|Hne].
    + rewrite lookup_insert_eq. assert (o = order) as -> by congruence.
      eexists. split; [done|]. split; [apply sameButStatus_set_status|done].
    + rewrite lookup_insert_ne by done. exists order.
      by split; [|split; [apply sameButStatus_refl|]].
Qed.

Lemma effect_tracked s s' : effect s s' → tracked s → tracked s'.
Proof.
  intros Heff Htr. destruct Heff as [|now data Hnew|bus o data Hnc Hd Hst
                                    |bus o data Hnc Hd Hst Hst']; [done|..];
    intros id order; simpl; rewrite lookup_insert; case_decide as Hid;
    try (by apply Htr); intros [= <-]; subst id; simpl.
  - split; [done|by left].
  - destruct (Htr _ _ Hd) as [Hk _]. split; [done|by right; right].
  - destruct (Htr _ _ Hd) as [Hk _]. split; [done|by right; left].
Qed.

Section InterfaceFacts.
Variable toISOString : Date → string.

Lemma act_effect s a : effect s (act toISOString s a).
Proof.
  destruct a as [[now data|data|now data]|orderId reason];
    unfold act, perform, handle.
  - unfold exec, handleOrderCreated.
    destruct (orders s !! OrderCreated.orderId data) eqn:Ho; simpl;
      [constructor|]. by apply effect_created.
  - unfold exec, handlePaymentFailed.
    destruct (orders s !! PaymentFailed.orderId data) as [o|] eqn:Ho;
      [|constructor].
    case_decide; [constructor|]. by eapply sendOrderCancelled_effect.
  - unfold exec, handleShipmentDelivered.
    destruct (orders s !! ShipmentDelivered.orderId data) as [o|] eqn:Ho;
      [|constructor].
    repeat (case_decide; [constructor|]). by eapply sendOrderCompleted_effect.
  - unfold exec, cancelOrder.
    destruct (orders s !! orderId) as [o|] eqn:Ho; [|constructor].
    repeat (case_decide; [constructor|]). by eapply sendOrderCancelled_effect.
Qed.

Lemma run_snoc acts a s :
  run toISOString (acts ++ [a]) s =
    act toISOString (run toISOString acts s) a.
Proof. unfold run. by rewrite foldl_app. Qed.

Lemma run_tracked acts s : tracked s → tracked (run toISOString acts s).
Proof.
  revert s. induction acts as [|a acts IH]; intros s Htr; [done|].
  simpl. apply IH. by eapply effect_tracked; [apply act_effect|].
Qed.

End InterfaceFacts.

Lemma new_tracked : tracked (connect new).
Proof. intros id order. simpl. by rewrite lookup_empty. Qed.

Section Lifecycle.
Variable toISOString : Date → string.

(** X1.  A cancelled order stays cancelled, whatever reaches the service
    afterwards: no message on any of the three subscriptions and no call
    of [cancelOrder] changes its status again. *)
Theorem cancelled_is_final acts s id :
  statusOf id s = Some cancelled →
  statusOf id (run toISOString acts s) = Some cancelled.
Proof.
  revert s. induction acts as [|a acts IH]; intros s Hst; [done|].
  simpl. apply IH. apply statusOf_Some in Hst as (o & Ho & Hc).
  destruct (effect_persists _ _ _ _ (act_effect toISOString s a) Ho)
    as (o' & Ho' & _ & Hkeep).
  apply statusOf_Some. exists o'. split; [done|by apply Hkeep].
Qed.

(** X2.  Starting from a service whose records sit under their own order
    id in one of the states pending, completed and cancelled, every
    record does so after any sequence of actions: the states confirmed,
    shipped and delivered never occur, and [getOrder(id)] never returns
    the record of another order. *)
Theorem orders_stay_tracked acts s id order :
  tracked s →
  getOrder id (run toISOString acts s) = Some order →
  Order.orderId order = id ∧
  (Order.status order = pending ∨ Order.status order = completed ∨
   Order.status order = cancelled).
Proof. intros Htr. by apply run_tracked. Qed.

(** X3.  An order is never dropped and never rewritten: once a record is
    tracked, every later state of the service has a record under the same
    id with the same order id, user id, total amount, items and creation
    date; a second order-created message with that id does not replace
    it. *)
Theorem order_record_is_permanent acts s id order :
  getOrder id s = Some order →
  ∃ order',
    getOrder id (run toISOString acts s) = Some order' ∧
    sameButStatus order order'.
Proof.
  unfold getOrder. revert s order.
  induction acts as [|a acts IH]; intros s order Ho.
  - exists order. split; [done|apply sameButStatus_refl].
  - destruct (effect_persists _ _ _ _ (act_effect toISOString s a) Ho)
      as (o1 & Ho1 & Hsame1 & _).
    destruct (IH _ _ Ho1) as (o2 & Ho2 & Hsame2).
    exists o2. split; [done|].
    destruct Hsame1 as (?&?&?&?&?), Hsame2 as (?&?&?&?&?).
    repeat split; congruence.
Qed.

End Lifecycle.

Lemma published_connected s bus : nc s = Some bus → published s = bus.
Proof. intros Hnc. unfold published. by rewrite Hnc. Qed.

Lemma cancelledCount_publish id s bus m orders' :
  nc s = Some bus →
  cancelledCount id {| nc := Some (bus ++ [m]); orders := orders' |} =
    (cancelledCount id s + (if announcesCancelled id m then 1 else 0))%nat.
Proof.
  intros Hnc. unfold cancelledCount, Bus.
  rewrite (published_connected s bus Hnc).
  change (published {| nc := Some (bus ++ [m]); orders := orders' |})
    with (bus ++ [m]).
  rewrite filter_app, length_app. f_equal.
  rewrite filter_cons, filter_nil. case_decide as Hm.
  - by rewrite Hm.
  - by destruct (announcesCancelled id m).
Qed.

Lemma completedCount_publish id s bus m orders' :
  nc s = Some bus →
  completedCount id {| nc := Some (bus ++ [m]); orders := orders' |} =
    (completedCount id s + (if announcesCompleted id m then 1 else 0))%nat.
Proof.
  intros Hnc. unfold completedCount, Bus.
  rewrite (published_connected s bus Hnc).
  change (published {| nc := Some (bus ++ [m]); orders := orders' |})
    with (bus ++ [m]).
  rewrite filter_app, length_app. f_equal.
  rewrite filter_cons, filter_nil. case_decide as Hm.
  - by rewrite Hm.
  - by destruct (announcesCompleted id m).
Qed.

Lemma announces_cancelled id subject data :
  announcesCancelled id (subject, Cancelled_ data) =
    bool_decide (OrderCancelled.orderId data = id) ∧
  announcesCompleted id (subject, Cancelled_ data) = false.
Proof. done. Qed.

Lemma announces_completed id subject data :
  announcesCompleted id (subject, Completed_ data) =
    bool_decide (OrderCompleted.orderId data = id) ∧
  announcesCancelled id (subject, Completed_ data) = false.
Proof. done. Qed.

Lemma statusOf_insert id k order b m :
  statusOf id {| nc := b; orders := <[k := order]> m |} =
    if decide (k = id) then Some (Order.status order)
    else Order.status <$> m !! id.
Proof.
  unfold statusOf. simpl. rewrite lookup_insert. by case_decide.
Qed.

Lemma effect_announced s s' :
  effect s s' → tracked s → announced s → announced s'.
Proof.
  intros Heff Htr Han id. specialize (Han id).
  destruct Heff as [|now data Hnew|bus o data Hnc Hd Hst
                   |bus o data Hnc Hd Hst Hst']; [done|..].
  - rewrite statusOf_insert. unfold cancelledCount, completedCount, published.
    simpl. case_decide as Hid; [|done]. subst id.
    unfold statusOf in Han. by rewrite Hnew in Han.
  - rewrite statusOf_insert.
    rewrite (cancelledCount_publish _ _ _ _ _ Hnc).
    rewrite (completedCount_publish _ _ _ _ _ Hnc).
    destruct (announces_cancelled id CHANNELS.orderCancelled data)
      as [-> ->].
    destruct (Htr _ _ Hd) as [_ Hthree].
    case_decide as Hid.
    + subst id. unfold statusOf in Han. rewrite Hd in Han. simpl in Han.
      rewrite bool_decide_eq_true_2 by done.
      destruct Hthree as [Hs|[Hs|Hs]]; [| |done]; rewrite Hs in Han;
        destruct Han as [-> ->]; simpl; lia.
    + rewrite bool_decide_eq_false_2 by done.
      rewrite !Nat.add_0_r. exact Han.
  - rewrite statusOf_insert.
    rewrite (cancelledCount_publish _ _ _ _ _ Hnc).
    rewrite (completedCount_publish _ _ _ _ _ Hnc).
    destruct (announces_completed id CHANNELS.orderCompleted data)
      as [-> ->].
    destruct (Htr _ _ Hd) as [_ Hthree].
    case_decide as Hid.
    + subst id. unfold statusOf in Han. rewrite Hd in Han. simpl in Han.
      rewrite bool_decide_eq_true_2 by done.
      destruct Hthree as [Hs|[Hs|Hs]]; [|done|done]; rewrite Hs in Han;
        destruct Han as [-> ->]; simpl; lia.
    + rewrite bool_decide_eq_false_2 by done.
      rewrite !Nat.add_0_r. exact Han.
Qed.

Lemma new_announced : announced (connect new).
Proof. intros id. unfold statusOf. simpl. by rewrite lookup_empty. Qed.

Section Announcements.
Variable toISOString : Date → string.

Lemma run_announced acts s :
  tracked s → announced s → announced (run toISOString acts s).
Proof.
  revert s. induction acts as [|a acts IH]; intros s Htr Han; [done|].
  simpl. pose proof (act_effect toISOString s a) as Heff.
  apply IH; [by eapply effect_tracked|by eapply effect_announced].
Qed.

(** X6.  A service started empty publishes at most one [order.cancelled]
    and at most one [order.completed] message per order, whatever the
    sequence of deliveries and [cancelOrder] calls, duplicates included;
    an [order.cancelled] message for an order is on the bus exactly when
    the order is cancelled, a completed order has its [order.completed]
    message, and a pending or unknown order has neither. *)
Theorem each_end_is_announced_once acts id :
  let s := run toISOString acts (connect new) in
  (cancelledCount id s ≤ 1)%nat ∧ (completedCount id s ≤ 1)%nat ∧
  (cancelledCount id s = 1%nat ↔ statusOf id s = Some cancelled) ∧
  (statusOf id s = Some completed → completedCount id s = 1%nat) ∧
  (statusOf id s = Some pending ∨ statusOf id s = None →
   completedCount id s = 0%nat).
Proof.
  intros s.
  pose proof (run_announced acts _ new_tracked new_announced id) as Han.
  fold s in Han. destruct (statusOf id s) as [[]|]; try done;
    destruct Han as [Hc Hd]; rewrite Hc;
    repeat split; try done; try lia; try (by intros [=]);
    try (by intros [[=]|[=]]).
Qed.

End Announcements.

(** X4.  Before [connect], nothing can be published and nothing is
    cancelled or completed: [sendOrderCancelled] and [sendOrderCompleted]
    throw ["Not connected to NATS"] before they touch the order, so
    [cancelOrder] on an order that is not terminal, and
    [handlePaymentFailed] on an order that is not cancelled, throw as
    well and leave the service as it was. *)
Theorem disconnected_service_changes_nothing s :
  nc s = None →
  (∀ data, sendOrderCancelled data s = (Thrown "Not connected to NATS", s)) ∧
  (∀ data, sendOrderCompleted data s = (Thrown "Not connected to NATS", s)) ∧
  (∀ orderId reason order,
     getOrder orderId s = Some order →
     Order.status order ≠ cancelled → Order.status order ≠ completed →
     cancelOrder orderId reason s = (Thrown "Not connected to NATS", s)) ∧
  (∀ data order,
     getOrder (PaymentFailed.orderId data) s = Some order →
     Order.status order ≠ cancelled →
     handlePaymentFailed data s = (Thrown "Not connected to NATS", s)).
Proof.
  intros Hnc.
  assert (Hc : ∀ data,
            sendOrderCancelled data s = (Thrown "Not connected to NATS", s)).
  { intros data. unfold sendOrderCancelled, bind.
    by rewrite (publish_disconnected _ _ _ Hnc). }
  split; [done|]. split.
  { intros data. unfold sendOrderCompleted, bind.
    by rewrite (publish_disconnected _ _ _ Hnc). }
  unfold getOrder. split.
  - intros orderId reason order Ho Hst Hst'. unfold cancelOrder.
    rewrite Ho, !decide_False by done. apply Hc.
  - intros data order Ho Hst. unfold handlePaymentFailed.
    rewrite Ho, decide_False by done. apply Hc.
Qed.

(** X7.  Called directly on a connected service, the two publishing
    operations check nothing: the message is published whether or not the
    order is known, and a known order is forced into the new state from
    any state, a cancelled order becoming completed and a completed order
    cancelled; nothing but that status changes. *)
Theorem publishing_operations_are_unguarded s :
  is_Some (nc s) →
  (∀ data,
     let r := sendOrderCancelled data s in
     r.1 = Returned tt ∧
     published r.2 =
       published s ++ [(CHANNELS.orderCancelled, Cancelled_ data)] ∧
     statusOf (OrderCancelled.orderId data) r.2 =
       (λ _, cancelled) <$> statusOf (OrderCancelled.orderId data) s ∧
     frame (OrderCancelled.orderId data) s r.2) ∧
  (∀ data,
     let r := sendOrderCompleted data s in
     r.1 = Returned tt ∧
     published r.2 =
       published s ++ [(CHANNELS.orderCompleted, Completed_ data)] ∧
     statusOf (OrderCompleted.orderId data) r.2 =
       (λ _, completed) <$> statusOf (OrderCompleted.orderId data) s ∧
     frame (OrderCompleted.orderId data) s r.2).
Proof.
  intros [bus Hnc].
  assert (Hsend : ∀ subject p id st,
            let r := (publish subject p ;; markStatus id st)%eff s in
            r.1 = Returned tt ∧
            published r.2 = published s ++ [(subject, p)] ∧
            statusOf id r.2 = (λ _, st) <$> statusOf id s ∧
            frame id s r.2).
  { intros subject p id st r.
    pose proof (send_frame subject p id st s) as Hframe.
    unfold exec in Hframe. fold r in Hframe.
    split; [|split; [|split; [|done]]]; subst r; unfold bind;
      rewrite (publish_connected _ _ _ _ Hnc); unfold markStatus, statusOf;
      simpl; destruct (orders s !! id) as [o|] eqn:Ho; simpl;
      rewrite ?lookup_insert_eq, ?Ho; try done;
      unfold published; simpl; by rewrite Hnc. }
  split; intros data; apply Hsend.
Qed.

#[local] Set Warnings "-clear-no-such-hyp".

Lemma createdIds_cons a acts :
  createdIds (a :: acts) = createdIds [a] ++ createdIds acts.
Proof. unfold createdIds. simpl. by destruct a as [[]|]. Qed.

Section Queries.
Variable toISOString : Date → string.

Lemma act_dom s a :
  dom (orders (act toISOString s a)) =
    dom (orders s) ∪ list_to_set (createdIds [a]).
Proof.
  destruct a as [[now data|data|now data]|orderId reason];
    unfold act, perform, handle; simpl.
  - unfold exec, handleOrderCreated.
    destruct (orders s !! OrderCreated.orderId data) eqn:Ho; simpl.
    + apply (elem_of_dom_2 (orders s)) in Ho. set_solver.
    + rewrite dom_insert_L. set_solver.
  - rewrite (frame_dom _ _ _ (handlePaymentFailed_frame data s)). set_solver.
  - rewrite (frame_dom _ _ _
               (handleShipmentDelivered_frame toISOString now data s)).
    set_solver.
  - rewrite (frame_dom _ _ _ (cancelOrder_frame orderId reason s)). set_solver.
Qed.

Lemma run_dom acts s :
  dom (orders (run toISOString acts s)) =
    dom (orders s) ∪ list_to_set (createdIds acts).
Proof.
  revert s. induction acts as [|a acts IH]; intros s.
  - simpl. set_solver.
  - change (run toISOString (a :: acts) s)
      with (run toISOString acts (act toISOString s a)).
    rewrite IH, act_dom, (createdIds_cons a acts), list_to_set_app_L.
    set_solver.
Qed.

(** X8.  [getOrderCount] counts order ids, not messages: after any
    sequence of actions on a new service it is the number of different
    order ids among the order-created messages delivered, however often
    each was delivered and whatever else happened to the orders. *)
Theorem getOrderCount_counts_created_ids acts :
  getOrderCount (run toISOString acts (connect new)) =
    length (remove_dups (createdIds acts)).
Proof.
  unfold getOrderCount. rewrite <- size_dom, run_dom. simpl.
  rewrite dom_empty_L, (left_id_L ∅ (∪)).
  rewrite <- (size_list_to_set (C := gset string) (remove_dups _))
    by apply NoDup_remove_dups.
  f_equal. apply set_eq. intros x.
  by rewrite !elem_of_list_to_set, elem_of_remove_dups.
Qed.

Lemma three_way_split (l : list Order.t) :
  Forall (λ o, Order.status o = pending ∨ Order.status o = completed ∨
               Order.status o = cancelled) l →
  (length (filter (λ o, Order.status o = pending) l)
   + length (filter (λ o, Order.status o = completed) l)
   + length (filter (λ o, Order.status o = cancelled) l))%nat = length l.
Proof.
  induction 1 as [|o l Ho _ IH]; [done|].
  rewrite !filter_cons. destruct Ho as [Ho|[Ho|Ho]]; rewrite Ho;
    repeat case_decide; try done; simpl; lia.
Qed.

(** X9.  The periodic status report adds up: in every state that a new
    service reaches, the orders returned by [getOrdersByStatus] for
    pending, completed and cancelled are together as many as
    [getOrderCount], and [getOrdersByStatus] returns exactly the tracked
    records that have the status asked for. *)
Theorem status_report_adds_up acts :
  let s := run toISOString acts (connect new) in
  (length (getOrdersByStatus pending s)
   + length (getOrdersByStatus completed s)
   + length (getOrdersByStatus cancelled s))%nat = getOrderCount s ∧
  ∀ status order,
    order ∈ getOrdersByStatus status s ↔
    Order.status order = status ∧
    getOrder (Order.orderId order) s = Some order.
Proof.
  intros s.
  pose proof (run_tracked toISOString acts _ new_tracked) as Htr. fold s in Htr.
  split.
  - unfold getOrdersByStatus, getOrderCount.
    rewrite three_way_split.
    + by rewrite length_fmap, length_map_to_list.
    + apply Forall_forall. intros o [[id o'] [-> Hin]]%list_elem_of_fmap.
      apply elem_of_map_to_list in Hin. simpl. by destruct (Htr _ _ Hin).
  - intros status order. unfold getOrdersByStatus, getOrder.
    rewrite list_elem_of_filter, list_elem_of_fmap. split.
    + intros [Hst [[id o'] [-> Hin]]]. apply elem_of_map_to_list in Hin.
      simpl in *. destruct (Htr _ _ Hin) as [-> _]. done.
    + intros [Hst Hget]. split; [done|].
      exists (Order.orderId order, order). split; [done|].
      by apply elem_of_map_to_list.
Qed.

End Queries.

(** [ORD-3], cancelled by the operator, then delivered, failed, created
    again and cancelled again. *)
Example cancelled_is_final_order3 :
  let iso := λ now : Date, "T+" +:+ pretty now in
  let s := exec (cancelOrder "ORD-3" "operator request") tracking3 in
  statusOf "ORD-3" s = Some cancelled ∧
  statusOf "ORD-3"
    (run iso [Deliver (OnShipmentDelivered 2000 shipmentDelivered3);
              Deliver (OnPaymentFailed paymentFailed3);
              Deliver (OnOrderCreated 3000 order3);
              CancelOrder "ORD-3" "again"] s) = Some cancelled.
Proof.
  intros iso s. split; [reflexivity|].
  apply (cancelled_is_final iso _ s "ORD-3"). reflexivity.
Defined.

Example orders_stay_tracked_order3 :
  let iso := λ now : Date, "T+" +:+ pretty now in
  let s := run iso [Deliver (OnOrderCreated 1000 order3);
                    Deliver (OnShipmentDelivered 2000 shipmentDelivered3)]
             (connect new) in
  ∃ order,
    getOrder "ORD-3" s = Some order ∧
    Order.orderId order = "ORD-3" ∧
    (Order.status order = pending ∨ Order.status order = completed ∨
     Order.status order = cancelled).
Proof.
  intros iso s. eexists. split; [reflexivity|].
  apply (orders_stay_tracked iso
           [Deliver (OnOrderCreated 1000 order3);
            Deliver (OnShipmentDelivered 2000 shipmentDelivered3)]
           (connect new) "ORD-3").
  - intros id order. simpl. by rewrite lookup_empty.
  - reflexivity.
Defined.

Example order_record_is_permanent_order3 :
  let iso := λ now : Date, "T+" +:+ pretty now in
  ∃ order',
    getOrder "ORD-3"
      (run iso [Deliver (OnOrderCreated 3000 order3);
                Deliver (OnPaymentFailed paymentFailed3)] tracking3) =
      Some order' ∧
    sameButStatus (orderOf 1000 order3) order'.
Proof.
  intros iso.
  apply (order_record_is_permanent iso
           [Deliver (OnOrderCreated 3000 order3);
            Deliver (OnPaymentFailed paymentFailed3)]
           tracking3 "ORD-3" (orderOf 1000 order3)).
  reflexivity.
Defined.

Example disconnected_service_changes_nothing_order3 :
  let s := exec (handleOrderCreated 1000 order3) new in
  statusOf "ORD-3" s = Some pending ∧
  cancelOrder "ORD-3" "operator request" s =
    (Thrown "Not connected to NATS", s).
Proof.
  intros s. split; [reflexivity|].
  destruct (disconnected_service_changes_nothing s eq_refl)
    as (_ & _ & Hcancel & _).
  apply (Hcancel "ORD-3" "operator request" (orderOf 1000 order3));
    [reflexivity|discriminate|discriminate].
Defined.

Example publishing_operations_are_unguarded_order3 :
  let s := exec (cancelOrder "ORD-3" "operator request") tracking3 in
  let data := {| OrderCompleted.orderId := "ORD-3";
                 OrderCompleted.completionTime := "T+2000" |} in
  statusOf "ORD-3" s = Some cancelled ∧
  statusOf "ORD-3" (sendOrderCompleted data s).2 = Some completed.
Proof.
  intros s data. split; [reflexivity|].
  destruct (publishing_operations_are_unguarded s) as [_ Hcompleted].
  - eexists. reflexivity.
  - destruct (Hcompleted data) as (_ & _ & Hst & _).
    transitivity ((λ _, completed) <$> statusOf "ORD-3" s);
      [exact Hst|reflexivity].
Defined.

End OrdersFacts.

(** * Properties of the inventory service *)

Module LedgerFacts.
Import Inventory.

(** *** The insertion-ordered map *)

Section JsMapFacts.
Context {V : Type}.
Implicit Types (m : JsMap V) (k : string) (v : V).

Lemma jm_get_set_eq k v m : jm_get k (jm_set k v m) = Some v.
Proof.
  induction m as [|[k' v'] m IH]; simpl.
  - by rewrite decide_True.
  - destruct (decide (k' = k)) as [->|Hne]; simpl.
    + by rewrite decide_True.
    + by rewrite decide_False.
Qed.

Lemma jm_get_set_ne k k' v m :
  k ≠ k' → jm_get k' (jm_set k v m) = jm_get k' m.
Proof.
  intros Hne. induction m as [|[k0 v0] m IH]; simpl.
  - by rewrite decide_False.
  - destruct (decide (k0 = k)) as [->|Hk0]; simpl.
    + by rewrite !decide_False.
    + by rewrite IH.
Qed.

Lemma jm_get_None k m : jm_get k m = None ↔ k ∉ jm_keys m.
Proof.
  unfold jm_keys. induction m as [|[k' v'] m IH]; simpl.
  - split; [intros _; apply not_elem_of_nil|done].
  - rewrite not_elem_of_cons. destruct (decide (k' = k)) as [->|Hne].
    + split; [done|]. by intros [? _].
    + rewrite IH. split; [by intros ?; split; [congruence|]|by intros [_ ?]].
Qed.

Lemma jm_keys_set k v m :
  jm_keys (jm_set k v m) =
    if decide (k ∈ jm_keys m) then jm_keys m else jm_keys m ++ [k].
Proof.
  unfold jm_keys. induction m as [|[k' v'] m IH].
  - rewrite decide_False; [done|apply not_elem_of_nil].
  - cbn [jm_set]. destruct (decide (k' = k)) as [->|Hne].
    + rewrite decide_True; [done|apply elem_of_cons; by left].
    + rewrite !fmap_cons, IH. cbn [fst]. destruct (decide (k ∈ m.*1)) as [Hin|Hnin].
      * rewrite decide_True; [done|apply elem_of_cons; by right].
      * rewrite decide_False; [done|].
        rewrite not_elem_of_cons. split; [congruence|done].
Qed.

Lemma jm_keys_delete_subseteq k m : jm_keys (jm_delete k m) ⊆ jm_keys m.
Proof.
  unfold jm_keys. induction m as [|[k' v'] m IH]; simpl; [done|].
  destruct (decide (k' = k)); simpl.
  - by apply list_subseteq_cons.
  - intros x. rewrite !elem_of_cons. intros [->|Hx]; [by left|right; by apply IH].
Qed.

Lemma jm_delete_NoDup k m : NoDup (jm_keys m) → NoDup (jm_keys (jm_delete k m)).
Proof.
  unfold jm_keys. induction m as [|[k' v'] m IH]; simpl; [done|].
  rewrite NoDup_cons. intros [Hnin Hnd].
  destruct (decide (k' = k)); simpl; [done|].
  rewrite NoDup_cons. split; [|by apply IH].
  intros Hin. apply Hnin. by apply (jm_keys_delete_subseteq k m).
Qed.

Lemma jm_get_delete_eq k m :
  NoDup (jm_keys m) → jm_get k (jm_delete k m) = None.
Proof.
  unfold jm_keys. induction m as [|[k' v'] m IH]; simpl; [done|].
  rewrite NoDup_cons. intros [Hnin Hnd].
  destruct (decide (k' = k)) as [->|Hne]; simpl.
  - by apply jm_get_None.
  - rewrite decide_False by done. by apply IH.
Qed.

Lemma jm_get_delete_ne k k' m :
  k ≠ k' → jm_get k' (jm_delete k m) = jm_get k' m.
Proof.
  intros Hne. induction m as [|[k0 v0] m IH]; simpl; [done|].
  destruct (decide (k0 = k)) as [->|Hk0]; simpl.
  - by rewrite decide_False.
  - by rewrite IH.
Qed.

Lemma jm_set_NoDup k v m : NoDup (jm_keys m) → NoDup (jm_keys (jm_set k v m)).
Proof.
  intros Hnd. rewrite jm_keys_set. case_decide; [done|].
  apply NoDup_app. split; [done|]. split; [|apply NoDup_singleton].
  intros x Hx ->%list_elem_of_singleton. done.
Qed.
End JsMapFacts.

(** *** Stock arithmetic *)

Lemma stockOf_insert store k q id :
  stockOf (<[k := q]> store) id = if decide (k = id) then q else stockOf store id.
Proof.
  unfold stockOf. destruct (decide (k = id)) as [->|Hne].
  - rewrite lookup_insert_eq. by case_decide.
  - by rewrite lookup_insert_ne.
Qed.

Lemma stockOf_reserveInventory items store id :
  stockOf (reserveInventory items store) id =
    stockOf store id - lineTotal id items.
Proof.
  revert store. induction items as [|item items IH]; intros store; simpl.
  - lia.
  - rewrite IH, stockOf_insert. case_decide as Hid; [rewrite Hid|]; lia.
Qed.

Lemma stockOf_releaseInventory items store id :
  stockOf (releaseInventory items store) id =
    stockOf store id + lineTotal id items.
Proof.
  revert store. induction items as [|item items IH]; intros store; simpl.
  - lia.
  - rewrite IH, stockOf_insert. case_decide as Hid; [rewrite Hid|]; lia.
Qed.

Lemma checkInventoryAvailability_true items store :
  checkInventoryAvailability items store = true ↔
  Forall (sufficient store) items.
Proof.
  induction items as [|item items IH]; simpl.
  - split; [constructor|done].
  - rewrite Forall_cons. unfold sufficient at 1. case_decide; [|rewrite IH].
    + split; [done|]. intros [? _]. lia.
    + split; [|tauto]. intros ?. split; [lia|done].
Qed.

Lemma checkInventoryAvailability_false items store :
  checkInventoryAvailability items store = false ↔
  Exists (insufficient store) items.
Proof.
  induction items as [|item items IH]; simpl.
  - rewrite Exists_nil. done.
  - rewrite Exists_cons. unfold insufficient at 1. case_decide; [|rewrite IH].
    + split; [by left|done].
    + split; [by right|]. intros [?|?]; [lia|done].
Qed.

(** *** Publishing *)

Lemma ledger_publish_connected subject p s bus :
  nc s = Some bus →
  publish subject p s = (Returned tt, set_nc (Some (bus ++ [(subject, p)])) s).
Proof. intros H. unfold publish. by rewrite H. Qed.

Lemma sendUpdates_cons item items s :
  sendUpdates (item :: items) s =
    match publish CHANNELS.INVENTORY_UPDATED
            (Updated_
               {| InventoryUpdated.itemId := InventoryItem.itemId item;
                  InventoryUpdated.newQuantity :=
                    stockOf (inventoryStore s) (InventoryItem.itemId item) |})
            s with
    | (Returned _, s') => sendUpdates items s'
    | (Thrown msg, s') => (Thrown msg, s')
    end.
Proof. reflexivity. Qed.

Lemma sendUpdates_connected items s bus :
  nc s = Some bus →
  sendUpdates items s =
    (Returned tt, set_nc (Some (bus ++ updates (inventoryStore s) items)) s).
Proof.
  revert s bus. induction items as [|item items IH]; intros s bus Hnc.
  - cbn. unfold ret. rewrite app_nil_r. destruct s; simpl in *. by subst.
  - rewrite sendUpdates_cons, (ledger_publish_connected _ _ _ _ Hnc).
    erewrite IH by reflexivity.
    unfold set_nc. simpl. by rewrite <- app_assoc.
Qed.

(** Publishing touches the connection only. *)
Lemma publish_ledger subject p s :
  ∃ o b, publish subject p s = (o, set_nc b s).
Proof.
  unfold publish. destruct (nc s) eqn:Hnc; [by eauto|].
  exists (Thrown "Not connected to NATS"), None.
  destruct s; simpl in *. by subst.
Qed.

Lemma sendUpdates_ledger items s :
  ∃ o b, sendUpdates items s = (o, set_nc b s).
Proof.
  revert s. induction items as [|item items IH]; intros s.
  - exists (Returned tt), (nc s). by destruct s.
  - rewrite sendUpdates_cons.
    destruct (publish_ledger CHANNELS.INVENTORY_UPDATED
                (Updated_
                   {| InventoryUpdated.itemId := InventoryItem.itemId item;
                      InventoryUpdated.newQuantity :=
                        stockOf (inventoryStore s)
                          (InventoryItem.itemId item) |}) s)
      as (o & b & ->).
    destruct o as [[]|msg]; [|by eauto].
    destruct (IH (set_nc b s)) as (o' & b' & ->). by exists o', b'.
Qed.

(** *** The two handlers *)

Lemma onOrderCreated_unfold now data s :
  onOrderCreated now data s =
    if checkInventoryAvailability (OrderCreated.items data) (inventoryStore s)
    then
      (sendInventoryReserved (reservedAt now data) ;;
       sendUpdates (OrderCreated.items data))%eff
        {| nc := nc s;
           inventoryStore :=
             reserveInventory (OrderCreated.items data) (inventoryStore s);
           reservations :=
             jm_set (reservationIdAt now) (reservationOf data)
               (reservations s) |}
    else (Returned tt, s).
Proof.
  unfold onOrderCreated, bind at 1, gets.
  by destruct (checkInventoryAvailability _ _).
Qed.

Lemma send_then_updates_ledger subject p items s :
  ∃ o b, (publish subject p ;; sendUpdates items)%eff s = (o, set_nc b s).
Proof.
  unfold bind. destruct (publish_ledger subject p s) as (o & b & ->).
  destruct o as [[]|msg]; [|by eauto].
  destruct (sendUpdates_ledger items (set_nc b s)) as (o' & b' & ->).
  by exists o', b'.
Qed.

Lemma send_then_updates_connected subject p items s bus :
  nc s = Some bus →
  (publish subject p ;; sendUpdates items)%eff s =
    (Returned tt,
     set_nc (Some (bus ++ (subject, p) :: updates (inventoryStore s) items)) s).
Proof.
  intros Hnc. unfold bind. rewrite (ledger_publish_connected _ _ _ _ Hnc).
  erewrite sendUpdates_connected by reflexivity.
  unfold set_nc. simpl. by rewrite <- app_assoc.
Qed.

Lemma onOrderCreated_rejects now data s :
  Exists (insufficient (inventoryStore s)) (OrderCreated.items data) →
  onOrderCreated now data s = (Returned tt, s).
Proof.
  intros Hcheck%checkInventoryAvailability_false.
  by rewrite onOrderCreated_unfold, Hcheck.
Qed.

Lemma onOrderCreated_reserves now data s :
  Forall (sufficient (inventoryStore s)) (OrderCreated.items data) →
  let r := onOrderCreated now data s in
  (∀ itemId,
     stockOf (inventoryStore r.2) itemId =
       stockOf (inventoryStore s) itemId
       - lineTotal itemId (OrderCreated.items data)) ∧
  jm_get (reservationIdAt now) (reservations r.2) = Some (reservationOf data) ∧
  (∀ k, k ≠ reservationIdAt now →
        jm_get k (reservations r.2) = jm_get k (reservations s)) ∧
  (is_Some (nc s) →
   r.1 = Returned tt ∧
   published r.2 =
     published s ++
       (CHANNELS.INVENTORY_RESERVED, Reserved_ (reservedAt now data))
       :: updates (inventoryStore r.2) (OrderCreated.items data)).
Proof.
  intros Hcheck%checkInventoryAvailability_true. simpl.
  rewrite onOrderCreated_unfold, Hcheck.
  match goal with |- context [bind _ _ ?s1] => set (reserved := s1) end.
  destruct (send_then_updates_ledger CHANNELS.INVENTORY_RESERVED
              (Reserved_ (reservedAt now data)) (OrderCreated.items data)
              reserved) as (o & b & Hrun).
  unfold sendInventoryReserved. rewrite Hrun. simpl.
  split; [intros id; apply stockOf_reserveInventory|].
  split; [apply jm_get_set_eq|].
  split; [intros k Hk; by apply jm_get_set_ne|].
  intros [bus Hnc].
  rewrite (send_then_updates_connected _ _ _ reserved bus Hnc) in Hrun.
  injection Hrun as <- Hb. split; [done|].
  rewrite <- Hb. unfold published, set_nc. simpl. by rewrite Hnc.
Qed.

(** C3.  The order-created handler is all-or-nothing.  Either some
    requested line asks for more than the stock of its item, and then
    the handler returns leaving the whole ledger as it was: no stock
    level changed, no reservation stored, nothing published.  Or every
    line passes the check, and then the stock of every item has gone
    down by exactly the quantities of the lines that name it, a
    reservation bound to the order id is stored under the generated id,
    every other reservation is as before, and (on a connected service)
    [inventory.reserved] is published, followed by the stock updates. *)
Theorem onOrderCreated_all_or_nothing now data s :
  let r := onOrderCreated now data s in
  (Exists (insufficient (inventoryStore s)) (OrderCreated.items data) ∧
   r = (Returned tt, s))
  ∨
  (Forall (sufficient (inventoryStore s)) (OrderCreated.items data) ∧
   (∀ itemId,
      stockOf (inventoryStore r.2) itemId =
        stockOf (inventoryStore s) itemId
        - lineTotal itemId (OrderCreated.items data)) ∧
   jm_get (reservationIdAt now) (reservations r.2) = Some (reservationOf data) ∧
   (∀ k, k ≠ reservationIdAt now →
         jm_get k (reservations r.2) = jm_get k (reservations s)) ∧
   (is_Some (nc s) →
    r.1 = Returned tt ∧
    published r.2 =
      published s ++
        (CHANNELS.INVENTORY_RESERVED, Reserved_ (reservedAt now data))
        :: updates (inventoryStore r.2) (OrderCreated.items data))).
Proof.
  intros r.
  destruct (checkInventoryAvailability (OrderCreated.items data)
              (inventoryStore s)) eqn:Hcheck.
  - right. apply checkInventoryAvailability_true in Hcheck.
    split; [done|]. by apply onOrderCreated_reserves.
  - left. apply checkInventoryAvailability_false in Hcheck.
    split; [done|]. by apply onOrderCreated_rejects.
Qed.

(** Scenarios 1 and 3 of the specification, through the theorem. *)
Example onOrderCreated_all_or_nothing_scenarios :
  (let r := onOrderCreated 1000 order1 init in
   stockOf (inventoryStore r.2) "ITEM-001" = 90 ∧
   jm_get "RES-1000" (reservations r.2) = Some (reservationOf order1)) ∧
  onOrderCreated 1000 order60 init = (Returned tt, init).
Proof.
  split.
  - destruct (onOrderCreated_all_or_nothing 1000 order1 init)
      as [[_ Hno]|(_ & Hstock & Hget & _)].
    + discriminate Hno.
    + split; [exact (Hstock "ITEM-001")|exact Hget].
  - destruct (onOrderCreated_all_or_nothing 1000 order60 init)
      as [[_ Hno]|[Hall _]].
    + exact Hno.
    + apply Forall_cons in Hall as [Hlt _]. vm_compute in Hlt.
      by destruct Hlt.
Defined.

Lemma findReservation_None orderId (m : JsMap Reservation.t) :
  findReservation orderId m = None ↔
  Forall (λ e, Reservation.orderId e.2 ≠ orderId) m.
Proof.
  induction m as [|[k v] m IH]; simpl.
  - split; [constructor|done].
  - rewrite Forall_cons. simpl. case_decide; [|rewrite IH].
    + split; [done|]. by intros [? _].
    + tauto.
Qed.

Lemma findReservation_Some orderId (m : JsMap Reservation.t) reservationId :
  NoDup (jm_keys m) →
  findReservation orderId m = Some reservationId →
  reservationId ∈ jm_keys m ∧
  ∃ reservation,
    jm_get reservationId m = Some reservation ∧
    Reservation.orderId reservation = orderId.
Proof.
  unfold jm_keys. induction m as [|[k v] m IH]; simpl; [done|].
  rewrite NoDup_cons. intros [Hk Hnd]. case_decide as Hv.
  - intros [= <-]. split; [apply elem_of_cons; by left|].
    exists v. by rewrite decide_True.
  - intros Hfind. destruct (IH Hnd Hfind) as (Hin & r & Hget & Hr).
    split; [apply elem_of_cons; by right|].
    exists r. rewrite decide_False; [done|]. by intros ->.
Qed.

Lemma onOrderCancelled_unfold data s :
  onOrderCancelled data s =
    match truthy (findReservation (OrderCancelled.orderId data)
                    (reservations s)) with
    | Some reservationId =>
        match jm_get reservationId (reservations s) with
        | None =>
            (Thrown "TypeError: Cannot read properties of undefined", s)
        | Some reservation =>
            (sendInventoryReleased
               (releasedOf reservationId (OrderCancelled.orderId data)
                  reservation) ;;
             sendUpdates (Reservation.items reservation))%eff
              {| nc := nc s;
                 inventoryStore :=
                   releaseInventory (Reservation.items reservation)
                     (inventoryStore s);
                 reservations := jm_delete reservationId (reservations s) |}
        end
    | None => (Returned tt, s)
    end.
Proof.
  unfold onOrderCancelled, bind at 1, gets at 1.
  destruct (truthy _); [|done].
  unfold bind at 1, gets at 1. by destruct (jm_get _ _).
Qed.

(** C5.  The order-cancelled handler for an order id that no reservation
    carries returns leaving the whole ledger as it was: no stock level
    changed, the reservation table untouched, nothing published.  When,
    in a well-formed ledger, some reservation carries the order id, one
    such reservation is released: the stock of every item goes up by the
    quantities of the reservation's lines that name it, the reservation
    record is deleted and the others are kept, and (on a connected
    service) [inventory.released] is published with the reservation's id
    and lines, followed by the stock updates. *)
Theorem onOrderCancelled_release data s :
  let r := onOrderCancelled data s in
  (Forall (λ e, Reservation.orderId e.2 ≠ OrderCancelled.orderId data)
     (reservations s) →
   r = (Returned tt, s)) ∧
  (ledger_wf s →
   Exists (λ e, Reservation.orderId e.2 = OrderCancelled.orderId data)
     (reservations s) →
   ∃ reservationId reservation,
     jm_get reservationId (reservations s) = Some reservation ∧
     Reservation.orderId reservation = OrderCancelled.orderId data ∧
     (∀ itemId,
        stockOf (inventoryStore r.2) itemId =
          stockOf (inventoryStore s) itemId
          + lineTotal itemId (Reservation.items reservation)) ∧
     jm_get reservationId (reservations r.2) = None ∧
     (∀ k, k ≠ reservationId →
           jm_get k (reservations r.2) = jm_get k (reservations s)) ∧
     (is_Some (nc s) →
      r.1 = Returned tt ∧
      published r.2 =
        published s ++
          (CHANNELS.INVENTORY_RELEASED,
           Released_ (releasedOf reservationId (OrderCancelled.orderId data)
                        reservation))
          :: updates (inventoryStore r.2) (Reservation.items reservation))).
Proof.
  simpl. rewrite onOrderCancelled_unfold. split.
  - intros Hnone%findReservation_None. by rewrite Hnone.
  - intros [Hnd Hne] Hsome.
    destruct (findReservation (OrderCancelled.orderId data) (reservations s))
      as [rid|] eqn:Hfind.
    2: { apply findReservation_None in Hfind.
         apply Exists_exists in Hsome as (e & He & Heq).
         rewrite Forall_forall in Hfind. by destruct (Hfind e He). }
    destruct (findReservation_Some _ _ _ Hnd Hfind) as (Hin & r & Hget & Hr).
    simpl. rewrite decide_False by (intros ->; done). rewrite Hget.
    exists rid, r. split; [done|]. split; [done|].
    match goal with |- context [bind _ _ ?s1] => set (released := s1) end.
    destruct (send_then_updates_ledger CHANNELS.INVENTORY_RELEASED
                (Released_ (releasedOf rid (OrderCancelled.orderId data) r))
                (Reservation.items r) released) as (o & b & Hrun).
    unfold sendInventoryReleased. rewrite Hrun. simpl.
    split; [intros id; apply stockOf_releaseInventory|].
    split; [by apply jm_get_delete_eq|].
    split; [intros k Hk; by apply jm_get_delete_ne|].
    intros [bus Hnc].
    rewrite (send_then_updates_connected _ _ _ released bus Hnc) in Hrun.
    injection Hrun as <- Hb. split; [done|].
    rewrite <- Hb. unfold published, set_nc. simpl. by rewrite Hnc.
Qed.

(** Scenario 2 of the specification: the reservation of [ORD-1] is
    released and [ITEM-001] is back at 100. *)
Example onOrderCancelled_release_order1 :
  let s := deliver init (OnOrderCreated 1000 order1) in
  let r := onOrderCancelled cancel1 s in
  stockOf (inventoryStore s) "ITEM-001" = 90 ∧
  reservations s = [("RES-1000", reservationOf order1)] ∧
  stockOf (inventoryStore r.2) "ITEM-001" = 100 ∧
  reservations r.2 = [] ∧
  jm_get "RES-1000" (reservations r.2) = None.
Proof.
  intros s r.
  assert (Hwf : ledger_wf s).
  { split; apply (bool_decide_unpack _); vm_compute; exact I. }
  destruct (onOrderCancelled_release cancel1 s) as [_ Hsome].
  destruct (Hsome Hwf) as (rid & res & Hget & _ & Hstock & Hgone & _).
  { apply Exists_cons. left. reflexivity. }
  change (reservations s) with [("RES-1000", reservationOf order1)] in Hget.
  simpl in Hget. case_decide as Hrid; [|discriminate Hget].
  injection Hget as <-. subst rid.
  split; [reflexivity|]. split; [reflexivity|].
  split; [exact (Hstock "ITEM-001")|]. split; [reflexivity|exact Hgone].
Defined.

(** *** Reservation ids *)

Lemma reservationIdAt_inj now1 now2 :
  reservationIdAt now1 = reservationIdAt now2 → now1 = now2.
Proof.
  unfold reservationIdAt. intros H. simpl in H.
  injection H as H. by apply (inj pretty).
Qed.

Lemma reservationIdAt_nonempty now : reservationIdAt now ≠ "".
Proof. done. Qed.

(** *** Reachable ledgers are well formed *)

Lemma init_wf : ledger_wf init.
Proof. split; [constructor|apply not_elem_of_nil]. Qed.

Lemma onOrderCreated_wf now data s :
  ledger_wf s → ledger_wf (exec (onOrderCreated now data) s).
Proof.
  intros [Hnd Hne]. unfold exec. rewrite onOrderCreated_unfold.
  destruct (checkInventoryAvailability _ _); [|done].
  match goal with |- context [bind _ _ ?s1] => set (reserved := s1) end.
  destruct (send_then_updates_ledger CHANNELS.INVENTORY_RESERVED
              (Reserved_ (reservedAt now data)) (OrderCreated.items data)
              reserved) as (o & b & Hrun).
  unfold sendInventoryReserved. rewrite Hrun. unfold ledger_wf. simpl.
  split; [by apply jm_set_NoDup|].
  rewrite jm_keys_set. case_decide; [done|].
  rewrite elem_of_app, list_elem_of_singleton.
  intros [?|Heq]; [done|]. by destruct (reservationIdAt_nonempty now).
Qed.

Lemma onOrderCancelled_wf data s :
  ledger_wf s → ledger_wf (exec (onOrderCancelled data) s).
Proof.
  intros [Hnd Hne]. unfold exec. rewrite onOrderCancelled_unfold.
  destruct (truthy _) as [rid|]; [|done].
  destruct (jm_get rid (reservations s)) as [r|]; [|done].
  match goal with |- context [bind _ _ ?s1] => set (released := s1) end.
  destruct (send_then_updates_ledger CHANNELS.INVENTORY_RELEASED
              (Released_ (releasedOf rid (OrderCancelled.orderId data) r))
              (Reservation.items r) released) as (o & b & Hrun).
  unfold sendInventoryReleased. rewrite Hrun. unfold ledger_wf. simpl.
  split; [by apply jm_delete_NoDup|].
  intros Hin. apply Hne. by apply (jm_keys_delete_subseteq rid).
Qed.

Lemma process_wf ds s : ledger_wf s → ledger_wf (process ds s).
Proof.
  revert s. induction ds as [|d ds IH]; intros s Hwf; [done|].
  simpl. apply IH. destruct d; [by apply onOrderCreated_wf|].
  by apply onOrderCancelled_wf.
Qed.

(** *** Concrete runs *)

(** C8 at its failing input.  Two order-created messages, for [ORD-1]
    and [ORD-2], both pass the availability check and are processed at
    the same clock reading 1000.  Both [inventory.reserved] messages
    carry the reservation id [RES-1000], and storing the second
    reservation replaces the first: the table holds one record, that of
    [ORD-2], and no reservation of [ORD-1] is left to release. *)
Theorem same_millisecond_reservations_collide :
  let s1 := deliver init (OnOrderCreated 1000 order1) in
  let s2 := deliver s1 (OnOrderCreated 1000 order2) in
  published s2 =
    [(CHANNELS.INVENTORY_RESERVED, Reserved_ (reservedAt 1000 order1));
     (CHANNELS.INVENTORY_UPDATED,
      Updated_ {| InventoryUpdated.itemId := "ITEM-001";
                  InventoryUpdated.newQuantity := 90 |});
     (CHANNELS.INVENTORY_RESERVED, Reserved_ (reservedAt 1000 order2));
     (CHANNELS.INVENTORY_UPDATED,
      Updated_ {| InventoryUpdated.itemId := "ITEM-002";
                  InventoryUpdated.newQuantity := 45 |})] ∧
  InventoryReserved.reservationId (reservedAt 1000 order1) =
    InventoryReserved.reservationId (reservedAt 1000 order2) ∧
  reservations s1 = [("RES-1000", reservationOf order1)] ∧
  reservations s2 = [("RES-1000", reservationOf order2)] ∧
  reservationsOf "ORD-1" (reservations s2) = [].
Proof. repeat split. Qed.

(** C4 at its failing inputs; every line has a quantity of at least 1.
    An order with two lines of 30 for [ITEM-002], seeded with 50, passes
    the line-by-line check and leaves the stock at -10.  Two orders
    reserving 10 and 5 of [ITEM-001] at the same clock reading leave a
    stock of 85 and, the first reservation being replaced by the second,
    a reserved total of 5, against a seeded quantity of 100. *)
Theorem stock_not_conserved :
  Forall (λ item, 1 ≤ InventoryItem.quantity item) (OrderCreated.items order7) ∧
  Forall (λ item, 1 ≤ InventoryItem.quantity item) (OrderCreated.items order1) ∧
  Forall (λ item, 1 ≤ InventoryItem.quantity item) (OrderCreated.items order2) ∧
  (let s := deliver init (OnOrderCreated 1000 order7) in
   stockOf (inventoryStore init) "ITEM-002" = 50 ∧
   stockOf (inventoryStore s) "ITEM-002" = -10) ∧
  (let s := process [OnOrderCreated 1000 order1; OnOrderCreated 1000 order2'] init in
   stockOf seed "ITEM-001" = 100 ∧
   stockOf (inventoryStore s) "ITEM-001" = 85 ∧
   reservedTotal "ITEM-001" (reservations s) = 5).
Proof.
  split; [repeat constructor; done|]. split; [repeat constructor; done|].
  split; [repeat constructor; done|]. repeat split.
Qed.

(** Against C2 as stated.  The order-created message of [ORD-1],
    delivered at clock readings 1000 and 2000, takes 10 of [ITEM-001]
    twice and leaves two reservations for the order. *)
Lemma duplicate_order_created_reserves_twice :
  let s1 := deliver init (OnOrderCreated 1000 order1) in
  let s2 := deliver s1 (OnOrderCreated 2000 order1) in
  stockOf (inventoryStore init) "ITEM-001" = 100 ∧
  stockOf (inventoryStore s1) "ITEM-001" = 90 ∧
  stockOf (inventoryStore s2) "ITEM-001" = 80 ∧
  reservationsOf "ORD-1" (reservations s1) =
    [("RES-1000", reservationOf order1)] ∧
  reservationsOf "ORD-1" (reservations s2) =
    [("RES-1000", reservationOf order1); ("RES-2000", reservationOf order1)].
Proof. repeat split. Qed.

(** *** What the ledger keeps of its invariant

    The conservation law and the sign of the stock survive every regular
    delivery; the two runs above are the irregular ones. *)

Lemma reservedTotal_set_fresh id k r (m : JsMap Reservation.t) :
  k ∉ jm_keys m →
  reservedTotal id (jm_set k r m) =
    reservedTotal id m + lineTotal id (Reservation.items r).
Proof.
  unfold jm_keys. induction m as [|[k' r'] m IH]; simpl.
  - intros _. lia.
  - rewrite not_elem_of_cons. intros [Hne Hnin].
    rewrite decide_False by done. simpl. rewrite IH by done. lia.
Qed.

Lemma reservedTotal_delete id k r (m : JsMap Reservation.t) :
  jm_get k m = Some r →
  reservedTotal id (jm_delete k m) =
    reservedTotal id m - lineTotal id (Reservation.items r).
Proof.
  induction m as [|[k' r'] m IH]; simpl; [done|].
  case_decide.
  - intros [= ->]. lia.
  - intros Hget. simpl. rewrite IH by done. lia.
Qed.

Lemma jm_get_elem_of {V} k (v : V) (m : JsMap V) :
  jm_get k m = Some v → (k, v) ∈ m.
Proof.
  induction m as [|[k' v'] m IH]; simpl; [done|].
  case_decide as Hk.
  - intros [= ->]. subst k'. apply elem_of_cons. by left.
  - intros Hget. apply elem_of_cons. right. by apply IH.
Qed.

Lemma elem_of_jm_set {V} e k (v : V) (m : JsMap V) :
  e ∈ jm_set k v m → e = (k, v) ∨ e ∈ m.
Proof.
  induction m as [|[k' v'] m IH]; simpl.
  - intros ->%list_elem_of_singleton. by left.
  - case_decide; rewrite !elem_of_cons; [tauto|].
    intros [->|Hin]; [by right; left|]. destruct (IH Hin); tauto.
Qed.

Lemma elem_of_jm_delete {V} e k (m : JsMap V) : e ∈ jm_delete k m → e ∈ m.
Proof.
  induction m as [|[k' v'] m IH]; simpl; [done|].
  case_decide; rewrite !elem_of_cons; [tauto|].
  intros [->|Hin]; [by left|right; by apply IH].
Qed.

Lemma lineTotal_absent id items :
  id ∉ InventoryItem.itemId <$> items → lineTotal id items = 0.
Proof.
  induction items as [|item items IH]; simpl; [done|].
  rewrite not_elem_of_cons. intros [Hne Hnin].
  rewrite decide_False by done. by apply IH.
Qed.

Lemma lineTotal_nonneg id items : positiveLines items → 0 ≤ lineTotal id items.
Proof.
  induction 1 as [|item items Hq _ IH]; simpl; [done|]. case_decide; lia.
Qed.

Lemma lineTotal_le_stock id items store :
  distinctLines items → Forall (sufficient store) items →
  0 ≤ stockOf store id → lineTotal id items ≤ stockOf store id.
Proof.
  unfold distinctLines. induction items as [|item items IH]; simpl; [done|].
  rewrite NoDup_cons, Forall_cons. intros [Hnin Hnd] [Hq Hall] Hpos.
  case_decide as Hid.
  - subst id. rewrite (lineTotal_absent _ _ Hnin). unfold sufficient in Hq. lia.
  - by apply IH.
Qed.

Lemma onOrderCreated_ledger now data s :
  ∃ o b,
    onOrderCreated now data s =
      (o,
       if checkInventoryAvailability (OrderCreated.items data)
            (inventoryStore s)
       then {| nc := b;
               inventoryStore :=
                 reserveInventory (OrderCreated.items data) (inventoryStore s);
               reservations :=
                 jm_set (reservationIdAt now) (reservationOf data)
                   (reservations s) |}
       else s).
Proof.
  rewrite onOrderCreated_unfold.
  destruct (checkInventoryAvailability _ _); [|by exists (Returned tt), None].
  match goal with |- context [bind _ _ ?s1] => set (reserved := s1) end.
  destruct (send_then_updates_ledger CHANNELS.INVENTORY_RESERVED
              (Reserved_ (reservedAt now data)) (OrderCreated.items data)
              reserved) as (o & b & Hrun).
  unfold sendInventoryReserved. rewrite Hrun. by exists o, b.
Qed.

Lemma onOrderCancelled_ledger data s :
  onOrderCancelled data s = (Returned tt, s) ∨
  (∃ o b reservationId reservation,
     jm_get reservationId (reservations s) = Some reservation ∧
     onOrderCancelled data s =
       (o,
        {| nc := b;
           inventoryStore :=
             releaseInventory (Reservation.items reservation)
               (inventoryStore s);
           reservations := jm_delete reservationId (reservations s) |})) ∨
  (∃ msg, onOrderCancelled data s = (Thrown msg, s)).
Proof.
  rewrite onOrderCancelled_unfold.
  destruct (truthy _) as [rid|]; [|by left].
  destruct (jm_get rid (reservations s)) as [r|] eqn:Hget;
    [|by right; right; eauto].
  right. left.
  match goal with |- context [bind _ _ ?s1] => set (released := s1) end.
  destruct (send_then_updates_ledger CHANNELS.INVENTORY_RELEASED
              (Released_ (releasedOf rid (OrderCancelled.orderId data) r))
              (Reservation.items r) released) as (o & b & Hrun).
  unfold sendInventoryReleased. rewrite Hrun. by exists o, b, rid, r.
Qed.

Lemma deliver_regular s d :
  regularAt s d →
  conserved s ∧ nonNegative s ∧ reservedPositive s →
  conserved (deliver s d) ∧ nonNegative (deliver s d) ∧
  reservedPositive (deliver s d).
Proof.
  intros Hreg (Hcons & Hpos & Hres). unfold deliver, exec.
  destruct d as [now data|data]; simpl.
  - destruct Hreg as (Hlines & Hdistinct & Hfresh).
    destruct (onOrderCreated_ledger now data s) as (o & b & ->). simpl.
    destruct (checkInventoryAvailability _ _) eqn:Hcheck; [|done].
    apply checkInventoryAvailability_true in Hcheck.
    unfold conserved, nonNegative, reservedPositive. simpl. split; [|split].
    + intros id. rewrite stockOf_reserveInventory.
      rewrite reservedTotal_set_fresh by done. simpl.
      specialize (Hcons id). lia.
    + intros id. rewrite stockOf_reserveInventory.
      pose proof (lineTotal_le_stock id _ _ Hdistinct Hcheck (Hpos id)). lia.
    + apply Forall_forall. intros e [->|He]%elem_of_jm_set; [done|].
      unfold reservedPositive in Hres. rewrite Forall_forall in Hres.
      by apply Hres.
  - destruct (onOrderCancelled_ledger data s)
      as [->|[(o & b & rid & r & Hget & ->)|[msg ->]]]; [done| |done].
    unfold conserved, nonNegative, reservedPositive. simpl.
    assert (Hr : positiveLines (Reservation.items r)).
    { unfold reservedPositive in Hres. rewrite Forall_forall in Hres.
      apply (Hres (rid, r)). by apply jm_get_elem_of. }
    split; [|split].
    + intros id. rewrite stockOf_releaseInventory.
      rewrite (reservedTotal_delete _ _ _ _ Hget).
      specialize (Hcons id). lia.
    + intros id. rewrite stockOf_releaseInventory.
      pose proof (lineTotal_nonneg id _ Hr). specialize (Hpos id). lia.
    + apply Forall_forall. intros e He%elem_of_jm_delete.
      unfold reservedPositive in Hres. rewrite Forall_forall in Hres.
      by apply Hres.
Qed.

(** X12.  Regular deliveries keep the books.  From a ledger that
    satisfies the conservation law, has no negative stock and holds only
    reservations with quantities of at least 1, every sequence of
    deliveries in which each order-created message has lines of quantity
    at least 1 for pairwise different items and meets an unused
    reservation id leads to a ledger in which, for every item, stock plus
    reserved quantity is the seeded quantity and the stock is not
    negative. *)
Lemma process_regular ds s :
  regular s ds →
  conserved s ∧ nonNegative s ∧ reservedPositive s →
  conserved (process ds s) ∧ nonNegative (process ds s).
Proof.
  revert s. induction ds as [|d ds IH]; intros s Hreg Hinv; simpl.
  - tauto.
  - destruct Hreg as [Hd Hds]. apply IH; [done|]. by apply deliver_regular.
Qed.

Lemma init_conserved : conserved init ∧ nonNegative init ∧ reservedPositive init.
Proof.
  split; [|split].
  - intros id. simpl. lia.
  - intros id. simpl. unfold stockOf, seed.
    repeat (rewrite lookup_insert; case_decide; [simpl; lia|]).
    by rewrite lookup_empty.
  - constructor.
Qed.

(** Reserve, release, reserve again, at three clock readings. *)
Example regular_run_conserved :
  let ds := [OnOrderCreated 1000 order1; OnOrderCancelled cancel1;
             OnOrderCreated 2000 order2] in
  regular init ds ∧
  conserved (process ds init) ∧ nonNegative (process ds init).
Proof.
  intros ds.
  assert (Hreg : regular init ds).
  { repeat split; try (repeat constructor; done);
      apply (bool_decide_unpack _); vm_compute; exact I. }
  split; [done|]. apply process_regular; [done|apply init_conserved].
Defined.

(** *** One order-created message delivered twice *)

Lemma onOrderCreated_twice l now1 now2 d :
  let l1 := exec (onOrderCreated now1 d) l in
  let l2 := exec (onOrderCreated now2 d) l1 in
  Forall (sufficient (inventoryStore l)) (OrderCreated.items d) →
  Forall (sufficient (inventoryStore l1)) (OrderCreated.items d) →
  (∀ itemId,
     stockOf (inventoryStore l2) itemId =
       stockOf (inventoryStore l) itemId
       - 2 * lineTotal itemId (OrderCreated.items d)) ∧
  (now1 ≠ now2 →
   jm_get (reservationIdAt now1) (reservations l2) = Some (reservationOf d) ∧
   jm_get (reservationIdAt now2) (reservations l2) = Some (reservationOf d)).
Proof.
  intros l1 l2 H1 H2.
  destruct (onOrderCreated_reserves now1 d l H1) as (Hs1 & Hg1 & _).
  destruct (onOrderCreated_reserves now2 d l1 H2) as (Hs2 & Hg2 & Hk2 & _).
  fold l1 in Hs1, Hg1. fold l2 in Hs2, Hg2, Hk2. split.
  - intros id. rewrite Hs2, Hs1. lia.
  - intros Hne. split; [|done]. rewrite Hk2; [done|].
    intros Heq%reservationIdAt_inj. done.
Qed.

(** C2, as the code has it.  In the coordinator the second of two
    order-created messages with one order id is a no-op: the service is
    left exactly as the first message left it, so there is one record
    for the order, the one built from the first message.  The ledger
    does not suppress the duplicate: when the lines pass the
    availability check at both deliveries, the stock of every item goes
    down by twice the quantities requested, and, the two deliveries
    being processed at different clock readings, each of the two
    generated ids holds a reservation of the order. *)
Theorem order_created_twice :
  (∀ s now1 now2 d1 d2,
     Orders.OrderCreated.orderId d2 = Orders.OrderCreated.orderId d1 →
     let s1 := exec (Orders.handleOrderCreated now1 d1) s in
     let r := Orders.handleOrderCreated now2 d2 s1 in
     r = (Returned tt, s1) ∧
     is_Some (Orders.orders s1 !! Orders.OrderCreated.orderId d1) ∧
     (Orders.orders s !! Orders.OrderCreated.orderId d1 = None →
      size (Orders.orders r.2) = S (size (Orders.orders s)) ∧
      Orders.orders r.2 !! Orders.OrderCreated.orderId d1 =
        Some (Orders.orderOf now1 d1))) ∧
  (∀ l now1 now2 d,
     let l1 := exec (onOrderCreated now1 d) l in
     let l2 := exec (onOrderCreated now2 d) l1 in
     Forall (sufficient (inventoryStore l)) (OrderCreated.items d) →
     Forall (sufficient (inventoryStore l1)) (OrderCreated.items d) →
     (∀ itemId,
        stockOf (inventoryStore l2) itemId =
          stockOf (inventoryStore l) itemId
          - 2 * lineTotal itemId (OrderCreated.items d)) ∧
     (now1 ≠ now2 →
      jm_get (reservationIdAt now1) (reservations l2) =
        Some (reservationOf d) ∧
      jm_get (reservationIdAt now2) (reservations l2) =
        Some (reservationOf d))).
Proof.
  split.
  - intros s now1 now2 d1 d2. apply OrdersFacts.handleOrderCreated_twice.
  - intros l now1 now2 d. apply onOrderCreated_twice.
Qed.

(** [ORD-3] created twice in the coordinator, [ORD-1] twice in the
    ledger. *)
Example order_created_twice_order1 :
  (let s1 := exec (Orders.handleOrderCreated 1000 Orders.order3)
               (Orders.connect Orders.new) in
   let r := Orders.handleOrderCreated 2000 Orders.order3 s1 in
   r = (Returned tt, s1) ∧
   size (Orders.orders r.2) = 1%nat ∧
   Orders.orders r.2 !! "ORD-3" = Some (Orders.orderOf 1000 Orders.order3)) ∧
  (let l2 := process [OnOrderCreated 1000 order1; OnOrderCreated 2000 order1]
               init in
   stockOf (inventoryStore l2) "ITEM-001" = 80 ∧
   jm_get "RES-1000" (reservations l2) = Some (reservationOf order1) ∧
   jm_get "RES-2000" (reservations l2) = Some (reservationOf order1)).
Proof.
  destruct order_created_twice as [Hcoordinator Hledger]. split.
  - destruct (Hcoordinator (Orders.connect Orders.new) 1000 2000
                Orders.order3 Orders.order3 eq_refl) as (Hr & _ & Hnew).
    destruct (Hnew eq_refl) as [Hsize Hget].
    exact (conj Hr (conj Hsize Hget)).
  - destruct (Hledger init 1000 2000 order1) as [Hstock Hres].
    + repeat constructor. unfold sufficient. vm_compute. discriminate.
    + repeat constructor. unfold sufficient. vm_compute. discriminate.
    + destruct Hres as [Hg1 Hg2]; [discriminate|].
      exact (conj (Hstock "ITEM-001") (conj Hg1 Hg2)).
Defined.

(** *** More on the two handlers *)







Lemma reservationsOf_cons orderId k r (m : JsMap Reservation.t) :
  reservationsOf orderId ((k, r) :: m) =
    if decide (Reservation.orderId r = orderId)
    then (k, r) :: reservationsOf orderId m
    else reservationsOf orderId m.
Proof. done. Qed.

Lemma reservationsOf_head orderId (m : JsMap Reservation.t) k r rest :
  NoDup (jm_keys m) →
  reservationsOf orderId m = (k, r) :: rest →
  findReservation orderId m = Some k ∧ jm_get k m = Some r ∧
  reservationsOf orderId (jm_delete k m) = rest ∧
  S (length (jm_delete k m)) = length m.
Proof.
  unfold jm_keys. revert rest.
  induction m as [|[k' r'] m IH]; intros rest; [done|].
  rewrite fmap_cons, NoDup_cons, reservationsOf_cons.
  cbn [fst findReservation jm_get jm_delete]. intros [Hnin Hnd].
  case_decide as Hm.
  - intros [= -> -> <-]. by rewrite !decide_True by done.
  - intros Hrest. destruct (IH _ Hnd Hrest) as (Hfind & Hget & Hdel & Hlen).
    assert (k' ≠ k).
    { intros ->. apply (proj2 (jm_get_None k m)) in Hnin. congruence. }
    rewrite !decide_False by done.
    rewrite reservationsOf_cons, decide_False by done.
    simpl. by rewrite Hlen.
Qed.

(** X11.  Reservations of one order are released oldest first, one per
    message.  In a well-formed ledger whose reservations for the order
    are [(reservationId, reservation) :: rest] in insertion order, the
    order-cancelled handler gives back the lines of [reservation], takes
    exactly that record out of the table and leaves [rest]; if [rest] is
    empty, a second order-cancelled message for the order changes
    nothing. *)
Theorem release_is_oldest_first data s reservationId reservation rest :
  ledger_wf s →
  reservationsOf (OrderCancelled.orderId data) (reservations s) =
    (reservationId, reservation) :: rest →
  let s1 := exec (onOrderCancelled data) s in
  reservationsOf (OrderCancelled.orderId data) (reservations s1) = rest ∧
  S (length (reservations s1)) = length (reservations s) ∧
  (∀ itemId,
     stockOf (inventoryStore s1) itemId =
       stockOf (inventoryStore s) itemId
       + lineTotal itemId (Reservation.items reservation)) ∧
  (rest = [] → exec (onOrderCancelled data) s1 = s1).
Proof.
  intros [Hnd Hne] Hhead s1.
  destruct (reservationsOf_head _ _ _ _ _ Hnd Hhead)
    as (Hfind & Hget & Hrest & Hlen).
  assert (Hs1 : ∃ b, s1 =
    {| nc := b;
       inventoryStore :=
         releaseInventory (Reservation.items reservation) (inventoryStore s);
       reservations := jm_delete reservationId (reservations s) |}).
  { unfold s1, exec. rewrite onOrderCancelled_unfold, Hfind. simpl.
    rewrite decide_False.
    2: { intros ->. apply (proj2 (jm_get_None "" (reservations s))) in Hne.
         congruence. }
    rewrite Hget.
    match goal with |- context [bind _ _ ?s'] => set (released := s') end.
    destruct (send_then_updates_ledger CHANNELS.INVENTORY_RELEASED
                (Released_ (releasedOf reservationId
                              (OrderCancelled.orderId data) reservation))
                (Reservation.items reservation) released)
      as (o' & b' & Hrel).
    unfold sendInventoryReleased. rewrite Hrel. by exists b'. }
  destruct Hs1 as [b Hs1]. rewrite Hs1. simpl.
  split; [done|]. split; [done|].
  split; [intros id; apply stockOf_releaseInventory|].
  intros ->. unfold exec. rewrite onOrderCancelled_unfold. simpl.
  assert (findReservation (OrderCancelled.orderId data)
            (jm_delete reservationId (reservations s)) = None) as ->; [|done].
  apply findReservation_None. apply Forall_forall. intros e He Heq.
  assert (e ∈ reservationsOf (OrderCancelled.orderId data)
                (jm_delete reservationId (reservations s))) as Hin.
  { unfold reservationsOf. by apply list_elem_of_filter. }
  rewrite Hrest in Hin. by apply not_elem_of_nil in Hin.
Qed.

Example release_is_oldest_first_of_two :
  let s := process [OnOrderCreated 1000 order1; OnOrderCreated 2000 order1]
             init in
  let s1 := exec (onOrderCancelled cancel1) s in
  stockOf (inventoryStore s) "ITEM-001" = 80 ∧
  reservationsOf "ORD-1" (reservations s1) =
    [("RES-2000", reservationOf order1)] ∧
  stockOf (inventoryStore s1) "ITEM-001" = 90.
Proof.
  intros s s1.
  destruct (release_is_oldest_first cancel1 s "RES-1000"
              (reservationOf order1) [("RES-2000", reservationOf order1)])
    as (Hrest & _ & Hstock & _).
  - split; apply (bool_decide_unpack _); vm_compute; exact I.
  - reflexivity.
  - split; [reflexivity|]. split; [exact Hrest|]. fold s1 in Hstock.
    rewrite (Hstock "ITEM-001"). reflexivity.
Defined.

Lemma reserveInventory_untouched items store id :
  id ∉ InventoryItem.itemId <$> items →
  reserveInventory items store !! id = store !! id.
Proof.
  revert store. induction items as [|item items IH]; intros store; [done|].
  rewrite fmap_cons, not_elem_of_cons. intros [Hne Hnin]. simpl.
  rewrite IH by done. by rewrite lookup_insert_ne.
Qed.

Lemma releaseInventory_untouched items store id :
  id ∉ InventoryItem.itemId <$> items →
  releaseInventory items store !! id = store !! id.
Proof.
  revert store. induction items as [|item items IH]; intros store; [done|].
  rewrite fmap_cons, not_elem_of_cons. intros [Hne Hnin]. simpl.
  rewrite IH by done. by rewrite lookup_insert_ne.
Qed.

(** X14.  Only the items named by the lines at hand are touched.  The
    order-created handler leaves the catalog entry of every item that no
    line of the order names exactly as it was, present or absent; the
    order-cancelled handler does so for every item that no line of any
    stored reservation names. *)
Theorem unnamed_items_are_untouched s itemId :
  (∀ now data,
     itemId ∉ InventoryItem.itemId <$> OrderCreated.items data →
     inventoryStore (exec (onOrderCreated now data) s) !! itemId =
       inventoryStore s !! itemId) ∧
  (∀ data,
     Forall (λ e, itemId ∉ InventoryItem.itemId <$> Reservation.items e.2)
       (reservations s) →
     inventoryStore (exec (onOrderCancelled data) s) !! itemId =
       inventoryStore s !! itemId).
Proof.
  split.
  - intros now data Hnin. unfold exec.
    destruct (onOrderCreated_ledger now data s) as (o & b & ->). simpl.
    destruct (checkInventoryAvailability _ _); [|done]. simpl.
    by apply reserveInventory_untouched.
  - intros data Hall. unfold exec.
    destruct (onOrderCancelled_ledger data s)
      as [->|[(o & b & rid & r & Hget & ->)|[msg ->]]]; [done| |done].
    simpl. apply releaseInventory_untouched.
    rewrite Forall_forall in Hall. apply (Hall (rid, r)).
    by apply jm_get_elem_of.
Qed.

Example unnamed_items_are_untouched_item2 :
  inventoryStore (exec (onOrderCreated 1000 order1) init) !! "ITEM-002" =
    Some 50 ∧
  inventoryStore (exec (onOrderCreated 1000 order1) init) !! "ITEM-009" =
    None.
Proof.
  split.
  - destruct (unnamed_items_are_untouched init "ITEM-002") as [Hcreate _].
    rewrite Hcreate; [reflexivity|].
    apply (bool_decide_unpack _). vm_compute. exact I.
  - destruct (unnamed_items_are_untouched init "ITEM-009") as [Hcreate _].
    rewrite Hcreate; [reflexivity|].
    apply (bool_decide_unpack _). vm_compute. exact I.
Defined.

(** X15.  A line of quantity at least 1 for an item that the catalog does
    not know, or that is out of stock, rejects the whole order: a missing
    entry counts as a stock of 0, and the handler returns leaving the
    ledger as it was, wherever the line stands among the others. *)
Theorem unknown_item_rejects_order now data s item :
  item ∈ OrderCreated.items data →
  inventoryStore s !! InventoryItem.itemId item = None ∨
  inventoryStore s !! InventoryItem.itemId item = Some 0 →
  1 ≤ InventoryItem.quantity item →
  onOrderCreated now data s = (Returned tt, s).
Proof.
  intros Hin Hstock Hq. apply onOrderCreated_rejects.
  apply Exists_exists. exists item. split; [done|].
  unfold insufficient, stockOf. destruct Hstock as [->| ->]; simpl; lia.
Qed.

Example unknown_item_rejects_order_item9 :
  onOrderCreated 1000
    {| OrderCreated.orderId := "ORD-9";
       OrderCreated.items := [line "ITEM-001" 1; line "ITEM-009" 1] |} init =
    (Returned tt, init).
Proof.
  apply (unknown_item_rejects_order 1000 _ init (line "ITEM-009" 1)).
  - apply elem_of_cons. right. apply elem_of_cons. by left.
  - left. reflexivity.
  - simpl. lia.
Defined.

(** X16.  Quantities are not validated.  On a ledger without negative
    stock, an order all of whose lines have a quantity of 0 or less, the
    order without lines included, always passes the availability check:
    it is stored as a reservation, and no stock level goes down; when the
    order is a single line of quantity [q] and the stock of its item less
    [q] is a safe integer, that is the new stock of the item, so a
    negative [q] raises the stock by its magnitude. *)
Theorem nonpositive_lines_are_accepted now data s :
  nonNegative s →
  Forall (λ item, InventoryItem.quantity item ≤ 0) (OrderCreated.items data) →
  let s1 := exec (onOrderCreated now data) s in
  jm_get (reservationIdAt now) (reservations s1) = Some (reservationOf data) ∧
  (∀ itemId,
     stockOf (inventoryStore s) itemId ≤ stockOf (inventoryStore s1) itemId) ∧
  (∀ item,
     OrderCreated.items data = [item] →
     safeInteger (stockOf (inventoryStore s) (InventoryItem.itemId item)
                  - InventoryItem.quantity item) →
     stockOf (inventoryStore s1) (InventoryItem.itemId item) =
       stockOf (inventoryStore s) (InventoryItem.itemId item)
       - InventoryItem.quantity item).
Proof.
  intros Hpos Hlines s1.
  assert (Hall : Forall (sufficient (inventoryStore s))
                   (OrderCreated.items data)).
  { eapply Forall_impl; [exact Hlines|]. intros item Hq. unfold sufficient.
    specialize (Hpos (InventoryItem.itemId item)). simpl in *. lia. }
  destruct (onOrderCreated_reserves now data s Hall) as (Hstock & Hget & _).
  fold s1 in Hstock, Hget. split; [done|]. split.
  - intros id. rewrite Hstock.
    assert (lineTotal id (OrderCreated.items data) ≤ 0); [|lia].
    clear -Hlines. induction Hlines as [|item items Hq _ IH]; simpl; [done|].
    case_decide; lia.
  - intros item Hitem _. rewrite Hstock, Hitem. simpl.
    rewrite decide_True by done. lia.
Qed.

Example nonpositive_lines_are_accepted_minus5 :
  let s1 := exec (onOrderCreated 1000
                    {| OrderCreated.orderId := "ORD-9";
                       OrderCreated.items := [line "ITEM-002" (-5)] |}) init in
  stockOf (inventoryStore s1) "ITEM-002" = 55.
Proof.
  destruct (nonpositive_lines_are_accepted 1000
              {| OrderCreated.orderId := "ORD-9";
                 OrderCreated.items := [line "ITEM-002" (-5)] |} init)
    as (_ & _ & Hone).
  - apply init_conserved.
  - repeat constructor. simpl. lia.
  - apply (Hone (line "ITEM-002" (-5)) eq_refl).
    unfold safeInteger. vm_compute. split; discriminate.
Defined.

(** X17.  Reservations made at different clock readings do not collide:
    when two order-created messages, for the same order or for two, both
    pass the availability check and are processed at different readings
    of the millisecond clock, their reservation ids differ and the table
    afterwards holds both reservations, each under its own id. *)
Theorem distinct_readings_keep_both s now1 now2 data1 data2 :
  now1 ≠ now2 →
  let s1 := exec (onOrderCreated now1 data1) s in
  let s2 := exec (onOrderCreated now2 data2) s1 in
  Forall (sufficient (inventoryStore s)) (OrderCreated.items data1) →
  Forall (sufficient (inventoryStore s1)) (OrderCreated.items data2) →
  reservationIdAt now1 ≠ reservationIdAt now2 ∧
  jm_get (reservationIdAt now1) (reservations s2) =
    Some (reservationOf data1) ∧
  jm_get (reservationIdAt now2) (reservations s2) =
    Some (reservationOf data2).
Proof.
  intros Hne s1 s2 H1 H2.
  destruct (onOrderCreated_reserves now1 data1 s H1) as (_ & Hg1 & _).
  destruct (onOrderCreated_reserves now2 data2 s1 H2) as (_ & Hg2 & Hk2 & _).
  fold s1 in Hg1. fold s2 in Hg2, Hk2.
  assert (Hids : reservationIdAt now1 ≠ reservationIdAt now2).
  { by intros Heq%reservationIdAt_inj. }
  split; [done|]. split; [|done]. by rewrite Hk2.
Qed.

Example distinct_readings_keep_both_orders :
  let s2 := process [OnOrderCreated 1000 order1; OnOrderCreated 1001 order2]
              init in
  jm_get "RES-1000" (reservations s2) = Some (reservationOf order1) ∧
  jm_get "RES-1001" (reservations s2) = Some (reservationOf order2).
Proof.
  destruct (distinct_readings_keep_both init 1000 1001 order1 order2)
    as (_ & Hg1 & Hg2).
  - discriminate.
  - repeat constructor. unfold sufficient. vm_compute. discriminate.
  - repeat constructor. unfold sufficient. vm_compute. discriminate.
  - split; [exact Hg1|exact Hg2].
Defined.

End LedgerFacts.
